(** * nao backend: the per-conversation agent service

    A shallow embedding of [apps/backend/src/utils.ts] (classes
    [AgentService] and [AgentManager]) together with the properties of the
    agent lifecycle: model selection, provider configuration, Anthropic cache
    breakpoints, streaming / one-shot runs, cancellation and disposal.

    The map of live agents is a [gmap]; asynchronous methods are written in a
    state-and-exception monad over the service state; everything the file
    imports from modules outside the translated sources (queries, provider
    helpers, the generation primitive of the [ai] package) is a field of the
    [World] record or an explicit outcome argument. *)

From stdpp Require Import gmap strings list fin_maps.

(** ** JavaScript preliminaries *)

(** Values thrown by the code and by its collaborators. *)
Inductive exn :=
  | Error (message : string)
  | TypeError (message : string)
  | Rejected (reason : string).

Inductive result (A : Type) :=
  | Ok (a : A)
  | Err (e : exn).
Arguments Ok {A} a.
Arguments Err {A} e.

Definition is_ok {A} (r : result A) : bool :=
  match r with Ok _ => true | Err _ => false end.

(** Truthiness of a [string | undefined] value: [undefined] and [''] are
    falsy. *)
Definition truthy (s : option string) : bool :=
  match s with
  | Some v => negb (String.eqb v "")
  | None => false
  end.

(** JSON values carried by [providerOptions]. *)
#[warnings="-register-all"]
Inductive JSONValue :=
  | JNull
  | JBool (b : bool)
  | JNum (n : Z)
  | JStr (s : string)
  | JArr (items : list JSONValue)
  | JObj (fields : list (string * JSONValue)).

(** ** Types of [../types/llm], [../utils/llm] and the queries *)

Definition LlmProvider := string.

Record ModelSelection := mkModelSelection {
  provider : LlmProvider;
  modelId : string;
}.

(** A row returned by [getProjectLlmConfigs] / [getProjectLlmConfigByProvider]. *)
Record LlmConfig := mkLlmConfig {
  cfg_provider : LlmProvider;
  cfg_apiKey : string;
  cfg_baseUrl : option string;
}.

(** The settings object handed to [createProviderModel]; [baseURL] is an
    optional key. *)
Record ProviderSettings := mkSettings {
  apiKey : string;
  baseURL : option string;
}.

(** Raw usage counters of the generation primitive and their converted forms. *)
Record LanguageModelUsage := mkUsage {
  inputTokens : Z;
  outputTokens : Z;
  totalTokens : Z;
}.

(** [FinishReason] of the [ai] package. *)
Inductive FinishReason :=
  | FinishStop
  | FinishLength
  | FinishContentFilter
  | FinishToolCalls
  | FinishError
  | FinishOther
  | FinishUnknown.

(** [ModelMessage] of the [ai] package, with the fields the code reads or
    writes.  [providerOptions] maps a provider name to that provider's
    options object; the key is optional. *)
Inductive Role := system | user | assistant | tool.

Record ModelMessage := mkMessage {
  role : Role;
  content : JSONValue;
  providerOptions : option (gmap string (gmap string JSONValue));
}.

Definition is_system (msg : ModelMessage) : bool :=
  match role msg with system => true | _ => false end.

(** The cache breakpoint a message carries for Anthropic, if any:
    [msg.providerOptions?.anthropic?.cacheControl]. *)
Definition cacheControl (msg : ModelMessage) : option JSONValue :=
  po ← providerOptions msg; opts ← po !! "anthropic"; opts !! "cacheControl".

(** Objects of the message heap, for the reading of [_withAnthropicCache] on
    references: a message object or an array of references. *)
Definition loc := positive.

Inductive JsObject :=
  | ObjMessage (msg : ModelMessage)
  | ObjArray (elems : list loc).

Abbreviation heap := (gmap loc JsObject).

(** What [upsertMessage] receives as [stopReason]: ['interrupted'] or a
    finish reason ([undefined] is [None] at the use site). *)
Inductive StopReason :=
  | interrupted
  | finished (reason : FinishReason).

(** [String(err)] as [onError] returns it.  For an error object this is
    [Error.prototype.toString]: the name alone when the message is empty,
    the name, a colon and the message otherwise; a thrown string is
    itself. *)
Definition String_ (err : exn) : string :=
  match err with
  | Error m => if String.eqb m "" then "Error" else "Error: " +:+ m
  | TypeError m => if String.eqb m "" then "TypeError" else "TypeError: " +:+ m
  | Rejected r => r
  end.

(** [AgentChat]: the fields of [UIChat] the code reads, with the owner and
    the project. *)
Record AgentChat := mkChat {
  chat_id : string;
  chat_title : string;
  chat_createdAt : Z;
  chat_updatedAt : Z;
  chat_userId : string;
  chat_projectId : string;
}.

(** One entry of [AgentRunResult.steps]. *)
Record StepRecord := mkStep {
  toolCalls : list (string * string * JSONValue);
  toolResults : list (string * option JSONValue);
}.

(** What [ToolLoopAgent.generate] resolves with. *)
Record GenerateTextResult := mkGenerateTextResult {
  gen_text : string;
  gen_totalUsage : LanguageModelUsage;
  gen_finishReason : option FinishReason;
  gen_responseMessages : list ModelMessage;
  gen_steps : list StepRecord;
}.

(** What [ToolLoopAgent.stream] resolves with; [totalUsage] is a promise,
    given here by how it settles. *)
Record StreamTextResult := mkStreamTextResult {
  totalUsage : result LanguageModelUsage;
}.

(** Method invocations on agent instances, kept as a history of the run. *)
Inductive Event :=
  | Stopped (agent : nat)
  | Disposed (agent : nat).

Global Instance Event_eq_dec : EqDecision Event.
Proof. solve_decision. Defined.

(** The event [createUIMessageStream] passes to [onFinish]. *)
Record FinishEvent (UIMessage : Type) := mkFinishEvent {
  isAborted : bool;
  finishReason : option FinishReason;
  responseMessage : UIMessage;
}.
Arguments mkFinishEvent {UIMessage}.
Arguments isAborted {UIMessage}.
Arguments finishReason {UIMessage}.
Arguments responseMessage {UIMessage}.

(** The variables [error] and [result] that the callbacks of one [stream]
    call close over. *)
Record StreamLocals := mkLocals {
  error : option exn;
  result_ : option StreamTextResult;
}.

(** What the writer of the UI message stream is given. *)
Inductive Chunk :=
  | DataNewChat (id title : string) (createdAt updatedAt : Z)
  | Merged (r : StreamTextResult)
  | ErrorText (text : string).

Section Service.

(** [Pick<ToolLoopAgentSettings, 'model' | 'providerOptions'>], built only by
    [createProviderModel]. *)
Context {ModelConfig : Type}.
Context {TokenUsage TokenCost : Type}.
(** [UIMessage] of [../types/chat]. *)
Context {UIMessage : Type}.

(** The collaborators of the service: queries over the stored
    configuration, the environment, and provider helpers.  Their modules are
    imported by [utils.ts]; each field is what a call returns. *)
Record World := mkWorld {
  getProjectLlmConfigs : string -> list LlmConfig;
  getProjectLlmConfigByProvider : string -> LlmProvider -> option LlmConfig;
  getDefaultModelId : LlmProvider -> string;
  getEnvModelSelections : list ModelSelection;
  getEnvApiKey : LlmProvider -> option string;
  createProviderModel : LlmProvider -> ProviderSettings -> string -> ModelConfig;
  CACHE_1H : JSONValue;
  CACHE_5M : JSONValue;
  getInstructions : string;
  convertToModelMessages : list UIMessage -> result (list ModelMessage);
  convertToTokenUsage : LanguageModelUsage -> TokenUsage;
  convertToCost : TokenUsage -> LlmProvider -> string -> TokenCost;
}.

(** ** Model selection and provider configuration *)

Definition _getResolvedModelSelection (W : World) (projectId : string)
    (modelSelection : option ModelSelection) : result ModelSelection :=
  match modelSelection with
  | Some sel => Ok sel
  | None =>
      let configs := getProjectLlmConfigs W projectId in
      match configs !! 0%nat with
      | Some config =>
          Ok {| provider := cfg_provider config;
                modelId := getDefaultModelId W (cfg_provider config) |}
      | None =>
          match getEnvModelSelections W !! 0%nat with
          | Some envSelection => Ok envSelection
          | None => Err (Error "No model config found")
          end
      end
  end.

Definition _getModelConfig (W : World) (projectId : string)
    (modelSelection : ModelSelection) : result ModelConfig :=
  match getProjectLlmConfigByProvider W projectId (provider modelSelection) with
  | Some config =>
      let settings :=
        {| apiKey := cfg_apiKey config;
           baseURL := if truthy (cfg_baseUrl config) then cfg_baseUrl config else None |} in
      Ok (createProviderModel W (provider modelSelection) settings (modelId modelSelection))
  | None =>
      let envApiKey := getEnvApiKey W (provider modelSelection) in
      match envApiKey with
      | Some key =>
          if truthy envApiKey
          then Ok (createProviderModel W (provider modelSelection)
                     {| apiKey := key; baseURL := None |} (modelId modelSelection))
          else Err (Error "No model config found")
      | None => Err (Error "No model config found")
      end
  end.

(** ** Anthropic cache breakpoints *)

(** The local [withCache] of [_withAnthropicCache]: a copy of [msg] whose
    [providerOptions.anthropic.cacheControl] is [cache]; spreading an absent
    object contributes no key. *)
Definition withCache (msg : ModelMessage) (cache : JSONValue) : ModelMessage :=
  let options := default ∅ (providerOptions msg) in
  let anthropic := default ∅ (options !! "anthropic") in
  {| role := role msg;
     content := content msg;
     providerOptions :=
       Some (<["anthropic" := <["cacheControl" := cache]> anthropic]> options) |}.

(** The callback given to [messages.map] in [_withAnthropicCache]. *)
Definition cacheStep (W : World) (lastIdx : nat) (idx : nat) (msg : ModelMessage)
    : ModelMessage :=
  if (idx =? 0)%nat && is_system msg then withCache msg (CACHE_1H W)
  else if (idx =? lastIdx)%nat && negb (idx =? 0)%nat then withCache msg (CACHE_5M W)
  else msg.

Definition _withAnthropicCache (W : World) (messages : list ModelMessage)
    (provider : LlmProvider) : list ModelMessage :=
  if negb (String.eqb provider "anthropic") || (length messages =? 0)%nat
  then messages
  else
    let lastIdx := (length messages - 1)%nat in
    imap (cacheStep W lastIdx) messages.

(** The same method on references.  Messages and arrays are objects of a
    heap; [map] builds a fresh array, [withCache] a fresh message object, and
    a message that gets no breakpoint is returned by reference. *)
Definition alloc (o : JsObject) (h : heap) : heap * loc :=
  let l := fresh (dom h) in (<[l := o]> h, l).

Definition readMessage (h : heap) (r : loc) : option ModelMessage :=
  match h !! r with
  | Some (ObjMessage msg) => Some msg
  | _ => None
  end.

Definition readArray (h : heap) (r : loc) : option (list ModelMessage) :=
  match h !! r with
  | Some (ObjArray elems) => mapM (readMessage h) elems
  | _ => None
  end.

Definition cacheStepRef (W : World) (lastIdx : nat) (idx : nat) (h : heap) (r : loc)
    : option (heap * loc) :=
  msg ← readMessage h r;
  if (idx =? 0)%nat && is_system msg
  then Some (alloc (ObjMessage (withCache msg (CACHE_1H W))) h)
  else if (idx =? lastIdx)%nat && negb (idx =? 0)%nat
  then Some (alloc (ObjMessage (withCache msg (CACHE_5M W))) h)
  else Some (h, r).

(** [Array.prototype.map] with an allocating callback. *)
Fixpoint arrayMap (f : nat -> heap -> loc -> option (heap * loc)) (h : heap)
    (elems : list loc) : option (heap * list loc) :=
  match elems with
  | [] => Some (h, [])
  | r :: rest =>
      match f 0%nat h r with
      | Some (h1, r') =>
          match arrayMap (fun i => f (S i)) h1 rest with
          | Some (h2, out) => Some (h2, r' :: out)
          | None => None
          end
      | None => None
      end
  end.

Definition _withAnthropicCacheRef (W : World) (h : heap) (messages : loc)
    (provider : LlmProvider) : option (heap * loc) :=
  match h !! messages with
  | Some (ObjArray elems) =>
      if negb (String.eqb provider "anthropic") || (length elems =? 0)%nat
      then Some (h, messages)
      else
        let lastIdx := (length elems - 1)%nat in
        match arrayMap (cacheStepRef W lastIdx) h elems with
        | Some (h', out) => Some (alloc (ObjArray out) h')
        | None => None
        end
  | _ => None
  end.

(** ** The service state *)

(** An [AgentManager] instance.  [objectId] is the identity of the object
    made by [new]; [_abortController] names the controller the caller passed
    in, which the caller and other sessions may share.  The [_onDispose]
    closure is determined by [chat.id] and is the function [_onDispose]
    below. *)
Record AgentManager := mkAgent {
  objectId : nat;
  chat : AgentChat;
  modelConfig : ModelConfig;
  _modelSelection : ModelSelection;
  _abortController : nat;
}.

(** The second argument of [chatQueries.upsertMessage], with the message. *)
Record UpsertCall := mkUpsert {
  up_message : UIMessage;
  up_chatId : string;
  up_stopReason : option StopReason;
  up_error : option exn;
  up_tokenUsage : TokenUsage;
  up_llmProvider : LlmProvider;
  up_llmModelId : string;
}.

Record State := mkState {
  (** [AgentService._agents] *)
  _agents : gmap string AgentManager;
  (** the abort controllers whose signal is aborted *)
  abortedSignals : gset nat;
  (** the calls of [upsertMessage], latest first *)
  upserted : list UpsertCall;
  (** allocator of [objectId]s *)
  nextObject : nat;
  (** [stop] and [_onDispose] invocations, latest first *)
  history : list Event;
}.

Definition initial_state : State :=
  {| _agents := ∅; abortedSignals := ∅; upserted := []; nextObject := 0%nat; history := [] |}.

(** A state without the history of invocations. *)
Definition observable (st : State) :=
  (_agents st, abortedSignals st, upserted st, nextObject st).

(** State and exceptions: a method takes the state and returns the new state
    with a value or a thrown value. *)
Definition M (A : Type) : Type := State -> State * result A.

Definition ret {A} (a : A) : M A := fun st => (st, Ok a).
Definition throw {A} (e : exn) : M A := fun st => (st, Err e).
Definition bind {A B} (m : M A) (k : A -> M B) : M B :=
  fun st =>
    match m st with
    | (st', Ok a) => k a st'
    | (st', Err e) => (st', Err e)
    end.
(** [await] of a promise that is already settled. *)
Definition await {A} (r : result A) : M A := fun st => (st, r).

Notation "x <- m ;; k" := (bind m (fun x => k))
  (at level 100, m at next level, right associativity).
Notation "m ;;; k" := (bind m (fun _ => k))
  (at level 100, right associativity).

(** ** [AgentManager] *)

Definition stop (agent : AgentManager) : M unit :=
  fun st =>
    ({| _agents := _agents st;
        abortedSignals := {[ _abortController agent ]} ∪ abortedSignals st;
        upserted := upserted st;
        nextObject := nextObject st;
        history := Stopped (objectId agent) :: history st |}, Ok tt).

(** The closure [() => this._agents.delete(chat.id)] of [create]. *)
Definition _onDispose (agent : AgentManager) : M unit :=
  fun st =>
    ({| _agents := delete (chat_id (chat agent)) (_agents st);
        abortedSignals := abortedSignals st;
        upserted := upserted st;
        nextObject := nextObject st;
        history := Disposed (objectId agent) :: history st |}, Ok tt).

Definition checkIsUserOwner (agent : AgentManager) (userId : string) : bool :=
  String.eqb (chat_userId (chat agent)) userId.

Definition getModelId (agent : AgentManager) : string :=
  modelId (_modelSelection agent).

Definition _buildInitialMessages (W : World) (uiMessages : list UIMessage)
    (provider : LlmProvider) : result (list ModelMessage) :=
  match convertToModelMessages W uiMessages with
  | Ok modelMessages =>
      let systemMessage :=
        {| role := system; content := JStr (getInstructions W); providerOptions := None |} in
      let messages := systemMessage :: modelMessages in
      Ok (_withAnthropicCache W messages provider)
  | Err e => Err e
  end.

(** The [prepareStep] option given to [ToolLoopAgent] by the constructor;
    [None] is [undefined]. *)
Definition prepareStep (W : World) (agent : AgentManager)
    (messages : list ModelMessage) (stepNumber : nat) : option (list ModelMessage) :=
  if (stepNumber =? 0)%nat then None
  else Some (_withAnthropicCache W messages (provider (_modelSelection agent))).

(** [AgentRunResult] *)
Record AgentRunResult := mkRunResult {
  run_text : string;
  run_usage : TokenUsage;
  run_cost : TokenCost;
  run_finishReason : FinishReason;
  run_durationMs : Z;
  run_responseMessages : list ModelMessage;
  run_steps : list StepRecord;
}.

(** [generate].  [agentGenerate] is [this._agent.generate] as a function of
    the messages it is given: it resolves or rejects (a provider failure, or
    the abort signal); [elapsed] is the rounded difference of the two clock
    readings. *)
Definition generate (W : World) (agent : AgentManager) (messages : list UIMessage)
    (agentGenerate : list ModelMessage -> result GenerateTextResult) (elapsed : Z)
    : M AgentRunResult :=
  initial <- await (_buildInitialMessages W messages (provider (_modelSelection agent)));;
  result <- await (agentGenerate initial);;
  let durationMs := elapsed in
  let usage := convertToTokenUsage W (gen_totalUsage result) in
  let cost :=
    convertToCost W usage (provider (_modelSelection agent)) (modelId (_modelSelection agent)) in
  let finishReason := default FinishStop (gen_finishReason result) in
  _onDispose agent;;;
  ret {| run_text := gen_text result;
         run_usage := usage;
         run_cost := cost;
         run_finishReason := finishReason;
         run_durationMs := durationMs;
         run_responseMessages := gen_responseMessages result;
         run_steps := gen_steps result |}.

(** [chatQueries.upsertMessage]: the call is recorded and settles as the
    store decides. *)
Definition upsertMessage (call : UpsertCall) (outcome : result unit) : M unit :=
  fun st =>
    ({| _agents := _agents st;
        abortedSignals := abortedSignals st;
        upserted := call :: upserted st;
        nextObject := nextObject st;
        history := history st |}, outcome).

(** The three callbacks [stream] gives to [createUIMessageStream]. *)
Definition execute (W : World) (agent : AgentManager) (uiMessages : list UIMessage)
    (sendNewChatData : bool)
    (agentStream : list ModelMessage -> result StreamTextResult)
    (locals : StreamLocals) : StreamLocals * list Chunk * result unit :=
  let written :=
    if sendNewChatData
    then [DataNewChat (chat_id (chat agent)) (chat_title (chat agent))
            (chat_createdAt (chat agent)) (chat_updatedAt (chat agent))]
    else [] in
  match _buildInitialMessages W uiMessages (provider (_modelSelection agent)) with
  | Err e => (locals, written, Err e)
  | Ok messages =>
      match agentStream messages with
      | Err e => (locals, written, Err e)
      | Ok r =>
          ({| error := error locals; result_ := Some r |}, written ++ [Merged r], Ok tt)
      end
  end.

Definition onError (err : exn) (locals : StreamLocals) : StreamLocals * string :=
  ({| error := Some err; result_ := result_ locals |}, String_ err).

Definition onFinish (W : World) (agent : AgentManager) (e : FinishEvent UIMessage)
    (locals : StreamLocals) (upsertOutcome : result unit) : M unit :=
  let stopReason := if isAborted e then Some interrupted else finished <$> finishReason e in
  usage <- match result_ locals with
           | Some result => await (totalUsage result)
           | None => throw (TypeError "Cannot read properties of undefined (reading 'totalUsage')")
           end;;
  let tokenUsage := convertToTokenUsage W usage in
  upsertMessage
    {| up_message := responseMessage e;
       up_chatId := chat_id (chat agent);
       up_stopReason := stopReason;
       up_error := error locals;
       up_tokenUsage := tokenUsage;
       up_llmProvider := provider (_modelSelection agent);
       up_llmModelId := modelId (_modelSelection agent) |} upsertOutcome;;;
  _onDispose agent.

(** How one stream run drives the callbacks: [execute] once, [onError] for
    the rejection of [execute] and for every error raised while the merged
    stream is read, and [onFinish] once at the end. *)
Record StreamRun := mkStreamRun {
  agentStream : list ModelMessage -> result StreamTextResult;
  streamErrors : list exn;
  finishEvent : FinishEvent UIMessage;
  upsertOutcome : result unit;
}.

Definition onErrors (errs : list exn) (locals : StreamLocals) : StreamLocals * list string :=
  foldl (fun acc err => let '(l, texts) := acc in
                        let '(l', text) := onError err l in (l', texts ++ [text]))
        (locals, []) errs.

Definition stream (W : World) (agent : AgentManager) (uiMessages : list UIMessage)
    (sendNewChatData : bool) (run : StreamRun) : State -> State * (list Chunk * result unit) :=
  fun st =>
    let '(locals1, chunks, executed) :=
      execute W agent uiMessages sendNewChatData (agentStream run)
        {| error := None; result_ := None |} in
    let raised := match executed with Err e => [e] | Ok _ => [] end ++ streamErrors run in
    let '(locals2, texts) := onErrors raised locals1 in
    let '(st', settled) := onFinish W agent (finishEvent run) locals2 (upsertOutcome run) st in
    (st', (chunks ++ (ErrorText <$> texts), settled)).

(** ** [AgentService] *)

Definition agents_delete (chatId : string) : M unit :=
  fun st =>
    ({| _agents := delete chatId (_agents st);
        abortedSignals := abortedSignals st;
        upserted := upserted st;
        nextObject := nextObject st;
        history := history st |}, Ok tt).

Definition agents_set (chatId : string) (agent : AgentManager) : M unit :=
  fun st =>
    ({| _agents := <[chatId := agent]> (_agents st);
        abortedSignals := abortedSignals st;
        upserted := upserted st;
        nextObject := nextObject st;
        history := history st |}, Ok tt).

(** [new AgentManager(chat, modelConfig, selection, onDispose, abortController)] *)
Definition newAgentManager (chat : AgentChat) (modelConfig : ModelConfig)
    (selection : ModelSelection) (abortController : nat) : M AgentManager :=
  fun st =>
    ({| _agents := _agents st;
        abortedSignals := abortedSignals st;
        upserted := upserted st;
        nextObject := S (nextObject st);
        history := history st |},
     Ok {| objectId := nextObject st;
           chat := chat;
           modelConfig := modelConfig;
           _modelSelection := selection;
           _abortController := abortController |}).

Definition _disposeAgent (chatId : string) : M unit :=
  fun st =>
    match _agents st !! chatId with
    | None => (st, Ok tt)
    | Some agent => (stop agent;;; agents_delete chatId) st
    end.

(** [create] after its first [await]: the part that runs once the call is
    resumed. *)
Definition create_resumed (W : World) (chat : AgentChat) (abortController : nat)
    (modelSelection : option ModelSelection) : M AgentManager :=
  resolvedModelSelection <-
    await (_getResolvedModelSelection W (chat_projectId chat) modelSelection);;
  modelConfig <- await (_getModelConfig W (chat_projectId chat) resolvedModelSelection);;
  agent <- newAgentManager chat modelConfig resolvedModelSelection abortController;;
  agents_set (chat_id chat) agent;;;
  ret agent.

Definition create (W : World) (chat : AgentChat) (abortController : nat)
    (modelSelection : option ModelSelection) : M AgentManager :=
  _disposeAgent (chat_id chat);;;
  create_resumed W chat abortController modelSelection.

Definition get (chatId : string) (st : State) : option AgentManager :=
  _agents st !! chatId.

(** A call of [create] with the collaborators as they answer during it, and
    a sequence of calls, each settled before the next starts. *)
Record CreateCall := mkCall {
  call_world : World;
  call_chat : AgentChat;
  call_abortController : nat;
  call_modelSelection : option ModelSelection;
}.

Fixpoint run_creates (calls : list CreateCall) (st : State)
    : State * list (result AgentManager) :=
  match calls with
  | [] => (st, [])
  | c :: rest =>
      let '(st1, r) :=
        create (call_world c) (call_chat c) (call_abortController c)
          (call_modelSelection c) st in
      let '(st2, rs) := run_creates rest st1 in
      (st2, r :: rs)
  end.

(** The state [create] leaves when it installs [agent] after the disposal. *)
Definition installed (st : State) (chat : AgentChat) (agent : AgentManager) : State :=
  {| _agents := <[chat_id chat := agent]> (_agents st);
     abortedSignals := abortedSignals st;
     upserted := upserted st;
     nextObject := S (nextObject st);
     history := history st |}.

(** The sessions a sequence of calls returned. *)
Definition created (rs : list (result AgentManager)) : list AgentManager :=
  omap (fun r => match r with Ok a => Some a | Err _ => None end) rs.

(** [stop] was invoked on the session: the history records it and the
    session's abort signal is aborted. *)
Definition stopped (agent : AgentManager) (st : State) : Prop :=
  Stopped (objectId agent) ∈ history st ∧ _abortController agent ∈ abortedSignals st.

(** The registry invariant, over the sessions [made] so far: a session is
    stored under its own conversation id and was made by [create]; a session
    that was made is resident or stopped; object identities are fresh and
    pairwise distinct. *)
Definition registry_inv (st : State) (made : list AgentManager) : Prop :=
  (forall k a, _agents st !! k = Some a -> chat_id (chat a) = k /\ a ∈ made) /\
  (forall a, a ∈ made -> _agents st !! chat_id (chat a) = Some a \/ stopped a st) /\
  (forall a, a ∈ made -> objectId a < nextObject st) /\
  NoDup (objectId <$> made).

(** How many times the disposal callback of the session was invoked. *)
Definition dispose_count (agent : AgentManager) (st : State) : nat :=
  length (filter (fun ev => ev = Disposed (objectId agent)) (history st)).

End Service.

(** ** Sample collaborators

    Project [p1] stores a configuration for [anthropic] with a custom base
    URL; the environment holds a key for [openai] only.  [bare_world] has no
    stored configuration and an empty environment. *)
Module Sample.

Definition config_p1 : LlmConfig :=
  {| cfg_provider := "anthropic"; cfg_apiKey := "sk-stored";
     cfg_baseUrl := Some "https://llm.example.test" |}.

Definition world : @World (LlmProvider * ProviderSettings * string) Z Z string :=
  {| getProjectLlmConfigs := fun projectId =>
       if String.eqb projectId "p1" then [config_p1] else [];
     getProjectLlmConfigByProvider := fun projectId p =>
       if String.eqb projectId "p1" && String.eqb p "anthropic"
       then Some config_p1 else None;
     getDefaultModelId := fun p =>
       if String.eqb p "anthropic" then "claude-default" else "gpt-default";
     getEnvModelSelections := [ {| provider := "openai"; modelId := "gpt-default" |} ];
     getEnvApiKey := fun p => if String.eqb p "openai" then Some "sk-env" else None;
     createProviderModel := fun p settings m => (p, settings, m);
     CACHE_1H := JObj [("type", JStr "ephemeral"); ("ttl", JStr "1h")];
     CACHE_5M := JObj [("type", JStr "ephemeral"); ("ttl", JStr "5m")];
     getInstructions := "You are a data analyst.";
     convertToModelMessages := fun ui =>
       Ok ((fun text => {| role := user; content := JStr text; providerOptions := None |})
             <$> ui);
     convertToTokenUsage := fun u => totalTokens u;
     convertToCost := fun u _ _ => (2 * u)%Z |}.

Definition bare_world : @World (LlmProvider * ProviderSettings * string) Z Z string :=
  {| getProjectLlmConfigs := fun _ => [];
     getProjectLlmConfigByProvider := fun _ _ => None;
     getDefaultModelId := getDefaultModelId world;
     getEnvModelSelections := [];
     getEnvApiKey := fun _ => None;
     createProviderModel := createProviderModel world;
     CACHE_1H := CACHE_1H world;
     CACHE_5M := CACHE_5M world;
     getInstructions := getInstructions world;
     convertToModelMessages := convertToModelMessages world;
     convertToTokenUsage := convertToTokenUsage world;
     convertToCost := convertToCost world |}.

(** A project that stores its own [openai] key, with no base URL, while the
    environment holds another key for the same provider. *)
Definition config_openai : LlmConfig :=
  {| cfg_provider := "openai"; cfg_apiKey := "sk-project"; cfg_baseUrl := None |}.

Definition keyed_world : @World (LlmProvider * ProviderSettings * string) Z Z string :=
  {| getProjectLlmConfigs := fun _ => [config_openai];
     getProjectLlmConfigByProvider := fun _ p =>
       if String.eqb p "openai" then Some config_openai else None;
     getDefaultModelId := getDefaultModelId world;
     getEnvModelSelections := getEnvModelSelections world;
     getEnvApiKey := getEnvApiKey world;
     createProviderModel := createProviderModel world;
     CACHE_1H := CACHE_1H world;
     CACHE_5M := CACHE_5M world;
     getInstructions := getInstructions world;
     convertToModelMessages := convertToModelMessages world;
     convertToTokenUsage := convertToTokenUsage world;
     convertToCost := convertToCost world |}.

Definition chat_c1 : AgentChat :=
  {| chat_id := "c1"; chat_title := "Revenue by month"; chat_createdAt := 1700000000;
     chat_updatedAt := 1700000050; chat_userId := "u1"; chat_projectId := "p2" |}.

Definition mistral_selection : ModelSelection :=
  {| provider := "mistral"; modelId := "mistral-large" |}.

(** Two calls for conversation [c1]: the first resolves to the environment's
    [openai]; the second names a provider with neither a stored
    configuration nor a key in the environment. *)
Definition first_call :=
  {| call_world := world; call_chat := chat_c1; call_abortController := 10%nat;
     call_modelSelection := None |}.
Definition failing_call :=
  {| call_world := world; call_chat := chat_c1; call_abortController := 11%nat;
     call_modelSelection := Some mistral_selection |}.
Definition second_call :=
  {| call_world := world; call_chat := chat_c1; call_abortController := 12%nat;
     call_modelSelection := None |}.

(** The session the first call returns, and the state it leaves. *)
Definition first_agent : AgentManager :=
  {| objectId := 0%nat; chat := chat_c1;
     modelConfig := ("openai", {| apiKey := "sk-env"; baseURL := None |}, "gpt-default");
     _modelSelection := {| provider := "openai"; modelId := "gpt-default" |};
     _abortController := 10%nat |}.

Definition state_one : @State (LlmProvider * ProviderSettings * string) Z string :=
  {| _agents := {[ "c1" := first_agent ]}; abortedSignals := ∅; upserted := [];
     nextObject := 1%nat; history := [] |}.

(** A generation that resolves without a finish reason, and a stream run
    that was aborted while the provider reported a normal stop. *)
Definition silent_result : GenerateTextResult :=
  {| gen_text := "42"; gen_totalUsage := {| inputTokens := 7; outputTokens := 3; totalTokens := 10 |};
     gen_finishReason := None; gen_responseMessages := []; gen_steps := [] |}.

Definition aborted_run : @StreamRun string :=
  {| agentStream := fun _ =>
       Ok {| totalUsage := Ok {| inputTokens := 7; outputTokens := 1; totalTokens := 8 |} |};
     streamErrors := [];
     finishEvent := {| isAborted := true; finishReason := Some FinishStop;
                       responseMessage := "partial answer" |};
     upsertOutcome := Ok tt |}.

(** The variables of that run when [onFinish] is called: no error was
    reported and the result of the agent is at hand. *)
Definition finish_locals : StreamLocals :=
  {| error := None;
     result_ :=
       Some {| totalUsage := Ok {| inputTokens := 7; outputTokens := 1; totalTokens := 8 |} |} |}.

(** A conversation of three messages, as values and as heap objects: the
    messages at 1, 2, 3 and the array at 4. *)
Definition msg_system : ModelMessage :=
  {| role := system; content := JStr "You are a data analyst."; providerOptions := None |}.
Definition msg_user : ModelMessage :=
  {| role := user; content := JStr "hi"; providerOptions := None |}.
Definition msg_assistant : ModelMessage :=
  {| role := assistant; content := JStr "hello"; providerOptions := None |}.

Definition conversation : list ModelMessage := [msg_system; msg_user; msg_assistant].

Definition conversation_heap : heap :=
  <[4%positive := ObjArray [1%positive; 2%positive; 3%positive]]>
    (<[3%positive := ObjMessage msg_assistant]>
       (<[2%positive := ObjMessage msg_user]>
          (<[1%positive := ObjMessage msg_system]> ∅))).

End Sample.

(** The option [msg.providerOptions?.[p]?.[k]] of a message. *)
Definition optionOf (msg : ModelMessage) (p k : string) : option JSONValue :=
  opts ← default ∅ (providerOptions msg) !! p; opts !! k.

(** Whether a message carries a cache breakpoint for Anthropic. *)
Definition is_marked (msg : ModelMessage) : bool :=
  match cacheControl msg with Some _ => true | None => false end.

(** ** Database selection

    [utils.ts] (the flag and the settings derived from it), [db/db.ts] (the
    handle), [drizzle.config.ts], [auth.ts] and the router of [trpc]: all
    read [process.env], a map from names to strings. *)
Module DbConfig.

Definition isPostgres (env : gmap string string) : bool :=
  bool_decide (env !! "DB_SELECTED" = Some "postgres").

Inductive SchemaModule := postgresSchema | sqliteSchema.

Definition provider (env : gmap string string) : string :=
  if isPostgres env then "pg" else "sqlite".
Definition schema (env : gmap string string) : SchemaModule :=
  if isPostgres env then postgresSchema else sqliteSchema.
Definition dialect (env : gmap string string) : string :=
  if isPostgres env then "postgresql" else "sqlite".
Definition migrationsFolder (env : gmap string string) : string :=
  if isPostgres env then "./migrations-postgres" else "./migrations-sqlite".
Definition schemaPath (env : gmap string string) : string :=
  if isPostgres env then "./src/db/pg-schema.ts" else "./src/db/sqlite-schema.ts".
(** [process.env.DB_URL!] / [process.env.DB_FILE_NAME!]: the assertion does
    not change the value, which is [undefined] for an unset variable. *)
Definition dbUrl (env : gmap string string) : option string :=
  if isPostgres env then env !! "DB_URL" else env !! "DB_FILE_NAME".

(** The handle of [db/db.ts], by the driver that builds it and what the
    driver is given. *)
Inductive Database :=
  | drizzlePostgres (connectionString : option string) (sch : SchemaModule)
  | drizzleSqlite (fileName : option string) (sch : SchemaModule).

Definition db (env : gmap string string) : Database :=
  if isPostgres env
  then drizzlePostgres (env !! "DB_URL") postgresSchema
  else drizzleSqlite (env !! "DB_FILE_NAME") sqliteSchema.

(** [drizzle.config.ts] *)
Record DrizzleKitConfig := mkKitConfig {
  kit_out : string;
  kit_schema : string;
  kit_dialect : string;
  kit_url : option string;
}.

Definition drizzleConfig (env : gmap string string) : DrizzleKitConfig :=
  {| kit_out := migrationsFolder env;
     kit_schema := schemaPath env;
     kit_dialect := dialect env;
     kit_url := dbUrl env |}.

(** [auth.ts]: the database adapter and the providers given to [betterAuth]. *)
Record AuthConfig := mkAuthConfig {
  adapter_db : Database;
  adapter_provider : string;
  adapter_schema : SchemaModule;
  emailAndPassword_enabled : bool;
  google_prompt : string;
  google_clientId : option string;
  google_clientSecret : option string;
}.

Definition auth (env : gmap string string) : AuthConfig :=
  {| adapter_db := db env;
     adapter_provider := provider env;
     adapter_schema := schema env;
     emailAndPassword_enabled := true;
     google_prompt := "select_account";
     google_clientId := env !! "GOOGLE_CLIENT_ID";
     google_clientSecret := env !! "GOOGLE_CLIENT_SECRET" |}.

(** The procedures of the router: [dbTest] calls a method of the handle,
    [hasGoogleSetup] reads the environment. *)
Inductive DbCall :=
  | db_execute (query : string)
  | db_run (query : string).

Definition dbTest (env : gmap string string) (query : string) : Database * DbCall :=
  (db env, if isPostgres env then db_execute query else db_run query).

Definition hasGoogleSetup (env : gmap string string) : bool :=
  truthy (env !! "GOOGLE_CLIENT_ID") && truthy (env !! "GOOGLE_CLIENT_SECRET").

(** Which driver a method of the handle belongs to. *)
Definition method_of_driver (d : Database) (c : DbCall) : bool :=
  match d, c with
  | drizzlePostgres _ _, db_execute _ => true
  | drizzleSqlite _ _, db_run _ => true
  | _, _ => false
  end.

End DbConfig.

(** ** Further sample data *)
Module Scenario.

(** A second conversation, of another user and of the project that stores
    an Anthropic configuration. *)
Definition chat_c2 : AgentChat :=
  {| chat_id := "c2"; chat_title := "Churn"; chat_createdAt := 1700000100;
     chat_updatedAt := 1700000200; chat_userId := "u2"; chat_projectId := "p1" |}.

Definition second_agent : AgentManager :=
  {| objectId := 1%nat; chat := Sample.chat_c1;
     modelConfig := ("openai", {| apiKey := "sk-env"; baseURL := None |}, "gpt-default");
     _modelSelection := {| provider := "openai"; modelId := "gpt-default" |};
     _abortController := 12%nat |}.

Definition agent_c2 : AgentManager :=
  {| objectId := 5%nat; chat := chat_c2;
     modelConfig :=
       ("anthropic",
        {| apiKey := "sk-stored"; baseURL := Some "https://llm.example.test" |},
        "claude-default");
     _modelSelection := {| provider := "anthropic"; modelId := "claude-default" |};
     _abortController := 20%nat |}.

(** Both conversations have a resident session. *)
Definition state_two : @State (LlmProvider * ProviderSettings * string) Z string :=
  {| _agents := <["c2" := agent_c2]> {[ "c1" := Sample.first_agent ]};
     abortedSignals := ∅; upserted := []; nextObject := 6%nat; history := [] |}.

Definition usage8 : LanguageModelUsage :=
  {| inputTokens := 7; outputTokens := 1; totalTokens := 8 |}.

Definition full_result : GenerateTextResult :=
  {| gen_text := "done"; gen_totalUsage := usage8; gen_finishReason := Some FinishLength;
     gen_responseMessages := [Sample.msg_assistant]; gen_steps := [] |}.

Definition normal_event : FinishEvent string :=
  {| isAborted := false; finishReason := Some FinishStop; responseMessage := "answer" |}.

(** A message that already carries options of another provider and another
    Anthropic option. *)
Definition msg_with_options : ModelMessage :=
  {| role := system; content := JStr "rules";
     providerOptions :=
       Some (<["openai" := {[ "store" := JBool true ]}]>
               {[ "anthropic" := {[ "sendReasoning" := JBool false ]} ]}) |}.

(** Environments of the process. *)
Definition env_postgres : gmap string string :=
  <["DB_SELECTED" := "postgres"]>
    (<["DB_URL" := "postgres://localhost/nao"]> {[ "DB_FILE_NAME" := "nao.db" ]}).

Definition env_capitalised : gmap string string :=
  <["DB_SELECTED" := "Postgres"]>
    (<["DB_URL" := "postgres://localhost/nao"]> {[ "DB_FILE_NAME" := "nao.db" ]}).

Definition env_google : gmap string string :=
  <["GOOGLE_CLIENT_ID" := "id-1"]> {[ "GOOGLE_CLIENT_SECRET" := "secret-1" ]}.

End Scenario.

(** * Properties *)

Section Resolution.

Context {ModelConfig TokenUsage TokenCost UIMessage : Type}.
Implicit Types W : @World ModelConfig TokenUsage TokenCost UIMessage.

(** C3. Resolution order of the model selection: an explicit selection is
    returned as it is; without one, the first stored configuration of the
    project gives the provider, paired with that provider's default model
    id; without stored configurations, the first selection of the
    environment is returned; with neither, the call fails with
    'No model config found'. *)
Theorem resolve_selection_order W (projectId : string) :
  (∀ sel, _getResolvedModelSelection W projectId (Some sel) = Ok sel) ∧
  (∀ config rest,
      getProjectLlmConfigs W projectId = config :: rest →
      _getResolvedModelSelection W projectId None =
        Ok {| provider := cfg_provider config;
              modelId := getDefaultModelId W (cfg_provider config) |}) ∧
  (∀ envSelection rest,
      getProjectLlmConfigs W projectId = [] →
      getEnvModelSelections W = envSelection :: rest →
      _getResolvedModelSelection W projectId None = Ok envSelection) ∧
  (getProjectLlmConfigs W projectId = [] →
   getEnvModelSelections W = [] →
   _getResolvedModelSelection W projectId None = Err (Error "No model config found")).
Proof.
  unfold _getResolvedModelSelection. repeat split.
  - intros config rest ->. reflexivity.
  - intros envSelection rest -> ->. reflexivity.
  - intros -> ->. reflexivity.
Qed.

(** C7. Precedence of the configuration loader: a stored configuration for
    the selection's provider is used alone, whatever the environment holds,
    with its key and with its base URL when it has a non-empty one, and with
    no base URL otherwise; without a stored configuration a non-empty
    environment key is used alone, with no base URL; with neither (an empty
    key counts as none), the call fails with 'No model config found'. *)
Theorem model_config_precedence W (projectId : string) (sel : ModelSelection) :
  (∀ config url,
      getProjectLlmConfigByProvider W projectId (provider sel) = Some config →
      cfg_baseUrl config = Some url → url ≠ "" →
      _getModelConfig W projectId sel =
        Ok (createProviderModel W (provider sel)
              {| apiKey := cfg_apiKey config; baseURL := Some url |} (modelId sel))) ∧
  (∀ config,
      getProjectLlmConfigByProvider W projectId (provider sel) = Some config →
      cfg_baseUrl config = None ∨ cfg_baseUrl config = Some "" →
      _getModelConfig W projectId sel =
        Ok (createProviderModel W (provider sel)
              {| apiKey := cfg_apiKey config; baseURL := None |} (modelId sel))) ∧
  (∀ key,
      getProjectLlmConfigByProvider W projectId (provider sel) = None →
      getEnvApiKey W (provider sel) = Some key → key ≠ "" →
      _getModelConfig W projectId sel =
        Ok (createProviderModel W (provider sel)
              {| apiKey := key; baseURL := None |} (modelId sel))) ∧
  (getProjectLlmConfigByProvider W projectId (provider sel) = None →
   getEnvApiKey W (provider sel) = None ∨ getEnvApiKey W (provider sel) = Some "" →
   _getModelConfig W projectId sel = Err (Error "No model config found")).
Proof.
  unfold _getModelConfig. split; [| split; [| split]].
  - intros config url -> -> Hurl. simpl.
    destruct (String.eqb_spec url ""); [contradiction | reflexivity].
  - intros config -> [-> | ->]; reflexivity.
  - intros key -> -> Hkey. simpl.
    destruct (String.eqb_spec key ""); [contradiction | reflexivity].
  - intros -> [-> | ->]; reflexivity.
Qed.

End Resolution.

Lemma resolve_selection_order_witness :
  _getResolvedModelSelection Sample.world "p1" None =
    Ok {| provider := "anthropic"; modelId := "claude-default" |} ∧
  _getResolvedModelSelection Sample.world "p2" None =
    Ok {| provider := "openai"; modelId := "gpt-default" |} ∧
  _getResolvedModelSelection Sample.bare_world "p2" None =
    Err (Error "No model config found").
Proof.
  split; [| split].
  - destruct (resolve_selection_order Sample.world "p1") as (_ & H & _).
    apply (H Sample.config_p1 []). reflexivity.
  - destruct (resolve_selection_order Sample.world "p2") as (_ & _ & H & _).
    apply (H {| provider := "openai"; modelId := "gpt-default" |} []); reflexivity.
  - destruct (resolve_selection_order Sample.bare_world "p2") as (_ & _ & _ & H).
    apply H; reflexivity.
Defined.

Lemma model_config_precedence_witness :
  _getModelConfig Sample.world "p1" {| provider := "anthropic"; modelId := "m" |} =
    Ok ("anthropic",
        {| apiKey := "sk-stored"; baseURL := Some "https://llm.example.test" |}, "m") ∧
  _getModelConfig Sample.keyed_world "p1" {| provider := "openai"; modelId := "m" |} =
    Ok ("openai", {| apiKey := "sk-project"; baseURL := None |}, "m") ∧
  _getModelConfig Sample.world "p2" {| provider := "openai"; modelId := "m" |} =
    Ok ("openai", {| apiKey := "sk-env"; baseURL := None |}, "m") ∧
  _getModelConfig Sample.world "p2" {| provider := "mistral"; modelId := "m" |} =
    Err (Error "No model config found").
Proof.
  split; [| split; [| split]].
  - destruct (model_config_precedence Sample.world "p1"
                {| provider := "anthropic"; modelId := "m" |}) as (H & _).
    apply (H Sample.config_p1 "https://llm.example.test");
      [reflexivity | reflexivity | discriminate].
  - destruct (model_config_precedence Sample.keyed_world "p1"
                {| provider := "openai"; modelId := "m" |}) as (_ & H & _).
    apply (H Sample.config_openai); [reflexivity | left; reflexivity].
  - destruct (model_config_precedence Sample.world "p2"
                {| provider := "openai"; modelId := "m" |}) as (_ & _ & H & _).
    apply (H "sk-env"); [reflexivity | reflexivity | discriminate].
  - destruct (model_config_precedence Sample.world "p2"
                {| provider := "mistral"; modelId := "m" |}) as (_ & _ & _ & H).
    apply H; [reflexivity | left; reflexivity].
Defined.

Section CacheBreakpoints.

Context {ModelConfig TokenUsage TokenCost UIMessage : Type}.
Implicit Types W : @World ModelConfig TokenUsage TokenCost UIMessage.
Implicit Types msg : ModelMessage.
Implicit Types messages : list ModelMessage.
Implicit Types h : heap.

(** *** [withCache] *)

Lemma withCache_role msg cache : role (withCache msg cache) = role msg.
Proof. reflexivity. Qed.

Lemma withCache_content msg cache : content (withCache msg cache) = content msg.
Proof. reflexivity. Qed.

Lemma withCache_is_system msg cache : is_system (withCache msg cache) = is_system msg.
Proof. reflexivity. Qed.

Lemma withCache_cacheControl msg cache : cacheControl (withCache msg cache) = Some cache.
Proof.
  unfold cacheControl, withCache. simpl.
  rewrite lookup_insert_eq. simpl. by rewrite lookup_insert_eq.
Qed.

(** A second breakpoint takes the place of the first. *)
Lemma withCache_replace msg c1 c2 : withCache (withCache msg c1) c2 = withCache msg c2.
Proof.
  unfold withCache. simpl. f_equal. f_equal.
  rewrite lookup_insert_eq. simpl. by rewrite !insert_insert_eq.
Qed.

(** The options of the other providers and the other Anthropic options are
    kept. *)
Lemma withCache_other_provider msg cache (p : string) :
  p ≠ "anthropic" →
  (default ∅ (providerOptions (withCache msg cache))) !! p
  = (default ∅ (providerOptions msg)) !! p.
Proof. intros Hp. unfold withCache. simpl. by rewrite lookup_insert_ne. Qed.

(** *** The callback *)

Lemma cacheStep_is_system W lastIdx idx msg :
  is_system (cacheStep W lastIdx idx msg) = is_system msg.
Proof.
  unfold cacheStep.
  destruct ((idx =? 0)%nat && is_system msg); [done |].
  by destruct ((idx =? lastIdx)%nat && negb (idx =? 0)%nat).
Qed.

Lemma cacheStep_idemp W lastIdx idx msg :
  cacheStep W lastIdx idx (cacheStep W lastIdx idx msg) = cacheStep W lastIdx idx msg.
Proof.
  unfold cacheStep at 2.
  destruct ((idx =? 0)%nat && is_system msg) eqn:Hfirst.
  - unfold cacheStep. rewrite withCache_is_system, Hfirst. apply withCache_replace.
  - destruct ((idx =? lastIdx)%nat && negb (idx =? 0)%nat) eqn:Hlast.
    + unfold cacheStep. rewrite withCache_is_system, Hfirst, Hlast. apply withCache_replace.
    + unfold cacheStep. by rewrite Hfirst, Hlast.
Qed.

Lemma withAnthropicCache_length W messages provider :
  length (_withAnthropicCache W messages provider) = length messages.
Proof.
  unfold _withAnthropicCache.
  destruct (negb (String.eqb provider "anthropic") || (length messages =? 0)%nat); [done |].
  apply length_imap.
Qed.

Lemma withAnthropicCache_noop W messages provider :
  provider ≠ "anthropic" ∨ messages = [] →
  _withAnthropicCache W messages provider = messages.
Proof.
  unfold _withAnthropicCache. intros [Hp | ->].
  - destruct (String.eqb_spec provider "anthropic"); [contradiction | done].
  - simpl. by rewrite orb_true_r.
Qed.

Lemma withAnthropicCache_lookup W messages (i : nat) :
  messages ≠ [] →
  _withAnthropicCache W messages "anthropic" !! i
  = cacheStep W (length messages - 1) i <$> messages !! i.
Proof.
  intros Hne. unfold _withAnthropicCache. simpl.
  destruct messages as [| m ms]; [done |]. simpl.
  apply (list_lookup_imap _ (m :: ms)).
Qed.

(** *** The method on references *)

Lemma alloc_fresh (o : JsObject) h : h !! (alloc o h).2 = None.
Proof. unfold alloc. simpl. apply (not_elem_of_dom (D := gset loc)), is_fresh. Qed.

Lemma alloc_subseteq (o : JsObject) h : h ⊆ (alloc o h).1.
Proof. unfold alloc. simpl. apply insert_subseteq, (alloc_fresh o). Qed.

Lemma alloc_lookup (o : JsObject) h : (alloc o h).1 !! (alloc o h).2 = Some o.
Proof. unfold alloc. simpl. apply lookup_insert_eq. Qed.

Lemma readMessage_weaken h h' (r : loc) msg :
  h ⊆ h' → readMessage h r = Some msg → readMessage h' r = Some msg.
Proof.
  unfold readMessage. intros Hsub Hread.
  destruct (h !! r) as [[m | elems] |] eqn:Hr; try discriminate.
  by rewrite (lookup_weaken _ _ _ _ Hr Hsub).
Qed.

Lemma readMessage_alloc h msg :
  readMessage (alloc (ObjMessage msg) h).1 (alloc (ObjMessage msg) h).2 = Some msg.
Proof. unfold readMessage. by rewrite alloc_lookup. Qed.

Lemma cacheStepRef_refines W lastIdx idx h (r : loc) msg :
  readMessage h r = Some msg →
  ∃ h' r', cacheStepRef W lastIdx idx h r = Some (h', r') ∧ h ⊆ h' ∧
           readMessage h' r' = Some (cacheStep W lastIdx idx msg).
Proof.
  intros Hread. unfold cacheStepRef, cacheStep. rewrite Hread. simpl.
  destruct ((idx =? 0)%nat && is_system msg).
  - eexists _, _. split; [reflexivity |].
    split; [apply alloc_subseteq | apply readMessage_alloc].
  - destruct ((idx =? lastIdx)%nat && negb (idx =? 0)%nat).
    + eexists _, _. split; [reflexivity |].
      split; [apply alloc_subseteq | apply readMessage_alloc].
    + eexists _, _. split; [reflexivity |]. split; [reflexivity | exact Hread].
Qed.

(** [arrayMap] with a callback that refines a function on values computes
    [imap] of that function and only adds objects to the heap. *)
Lemma arrayMap_refines (elems : list loc) :
  ∀ (f : nat → ModelMessage → ModelMessage)
    (g : nat → heap → loc → option (heap * loc)) h messages,
    (∀ i h0 r msg, readMessage h0 r = Some msg →
       ∃ h1 r', g i h0 r = Some (h1, r') ∧ h0 ⊆ h1 ∧ readMessage h1 r' = Some (f i msg)) →
    Forall2 (λ r msg, readMessage h r = Some msg) elems messages →
    ∃ h' out, arrayMap g h elems = Some (h', out) ∧ h ⊆ h' ∧
              Forall2 (λ r msg, readMessage h' r = Some msg) out (imap f messages).
Proof.
  induction elems as [| r rest IH]; intros f g h messages Hg Hreads.
  - apply Forall2_nil_inv_l in Hreads as ->. exists h, []. simpl. by repeat split.
  - apply Forall2_cons_inv_l in Hreads as (msg & msgs & Hr & Hrest & ->).
    destruct (Hg 0%nat h r msg Hr) as (h1 & r' & Hstep & Hsub1 & Hr').
    assert (Hrest1 : Forall2 (λ r msg, readMessage h1 r = Some msg) rest msgs).
    { eapply Forall2_impl; [exact Hrest |]. intros ? ? ?. by eapply readMessage_weaken. }
    destruct (IH (λ i, f (S i)) (λ i, g (S i)) h1 msgs) as (h2 & out & Hmap & Hsub2 & Hout).
    { intros i h0 r0 msg0. apply Hg. }
    { exact Hrest1. }
    exists h2, (r' :: out). simpl. rewrite Hstep, Hmap.
    split; [reflexivity |]. split; [by etrans |].
    constructor; [by eapply readMessage_weaken | exact Hout].
Qed.

Lemma readArray_inv h (arr : loc) messages :
  readArray h arr = Some messages →
  ∃ elems, h !! arr = Some (ObjArray elems) ∧
           Forall2 (λ r msg, readMessage h r = Some msg) elems messages.
Proof.
  unfold readArray. intros Hread.
  destruct (h !! arr) as [[m | elems] |]; try discriminate.
  exists elems. split; [done |]. by apply mapM_Some_1.
Qed.

(** The method on references computes [_withAnthropicCache] on the values,
    and every object of the heap it started from is still there, as it was. *)
Lemma withAnthropicCacheRef_refines W h (arr : loc) messages provider :
  readArray h arr = Some messages →
  ∃ h' arr',
    _withAnthropicCacheRef W h arr provider = Some (h', arr') ∧
    h ⊆ h' ∧
    readArray h' arr' = Some (_withAnthropicCache W messages provider) ∧
    (provider ≠ "anthropic" ∨ messages = [] → h' = h ∧ arr' = arr).
Proof.
  intros Hread. destruct (readArray_inv _ _ _ Hread) as (elems & Harr & Hreads).
  pose proof (Forall2_length _ _ _ Hreads) as Hlen.
  unfold _withAnthropicCacheRef, _withAnthropicCache. rewrite Harr, Hlen.
  destruct (negb (String.eqb provider "anthropic") || (length messages =? 0)%nat) eqn:Hnoop.
  - exists h, arr. by repeat split.
  - destruct (arrayMap_refines elems (cacheStep W (length messages - 1))
                (cacheStepRef W (length messages - 1)) h messages)
      as (h' & out & Hmap & Hsub & Hout).
    { intros i h0 r msg. apply cacheStepRef_refines. }
    { exact Hreads. }
    rewrite Hmap.
    exists (alloc (ObjArray out) h').1, (alloc (ObjArray out) h').2.
    split; [reflexivity |].
    split; [etrans; [exact Hsub | apply alloc_subseteq] |].
    split.
    + unfold readArray. rewrite alloc_lookup. apply mapM_Some_2.
      eapply Forall2_impl; [exact Hout |]. intros r msg Hr.
      eapply readMessage_weaken; [apply alloc_subseteq | exact Hr].
    + apply orb_false_elim in Hnoop as [Hp Hl]. intros [Hne | ->].
      * destruct (String.eqb_spec provider "anthropic"); [contradiction | discriminate].
      * discriminate.
Qed.

(** C4. Cache-annotation policy.  For a provider other than Anthropic or
    an empty sequence the input is returned as it is (the same array, on
    references).  For Anthropic and a non-empty sequence the result has the
    length of the input; its first message is the first input message with
    the one-hour breakpoint when that message has role system, and the first
    input message itself otherwise; its last message, when it is not the
    first, is the last input message with the five-minute breakpoint; every
    message in between is the input message.  A message with a breakpoint
    keeps role and content and carries that breakpoint.  On references the
    result is read from a heap that extends the input heap: no object of the
    input is changed. *)
Theorem cache_annotation_policy W messages provider :
  (provider ≠ "anthropic" ∨ messages = [] →
     _withAnthropicCache W messages provider = messages) ∧
  (provider = "anthropic" → messages ≠ [] →
     length (_withAnthropicCache W messages provider) = length messages ∧
     (∀ first, messages !! 0%nat = Some first →
        _withAnthropicCache W messages provider !! 0%nat
        = Some (if is_system first then withCache first (CACHE_1H W) else first)) ∧
     (∀ last, messages !! (length messages - 1)%nat = Some last →
        (length messages - 1)%nat ≠ 0%nat →
        _withAnthropicCache W messages provider !! (length messages - 1)%nat
        = Some (withCache last (CACHE_5M W))) ∧
     (∀ i : nat, (0 < i < length messages - 1)%nat →
        _withAnthropicCache W messages provider !! i = messages !! i)) ∧
  (∀ msg cache,
     cacheControl (withCache msg cache) = Some cache ∧
     role (withCache msg cache) = role msg ∧
     content (withCache msg cache) = content msg) ∧
  (∀ h (arr : loc),
     readArray h arr = Some messages →
     ∃ h' arr',
       _withAnthropicCacheRef W h arr provider = Some (h', arr') ∧
       h ⊆ h' ∧
       readArray h' arr' = Some (_withAnthropicCache W messages provider) ∧
       (provider ≠ "anthropic" ∨ messages = [] → h' = h ∧ arr' = arr)).
Proof.
  split; [apply withAnthropicCache_noop |].
  split.
  { intros -> Hne. split; [apply withAnthropicCache_length |].
    split; [| split].
    - intros first Hfirst. rewrite withAnthropicCache_lookup, Hfirst by done.
      simpl. unfold cacheStep. simpl.
      destruct (is_system first); [done |]. by rewrite andb_false_r.
    - intros last Hlast Hidx. rewrite withAnthropicCache_lookup, Hlast by done.
      simpl. unfold cacheStep.
      destruct (Nat.eqb_spec (length messages - 1) 0); [contradiction |].
      simpl. by rewrite Nat.eqb_refl.
    - intros i [Hlo Hhi]. rewrite withAnthropicCache_lookup by done.
      destruct (messages !! i) as [msg |]; [| done]. simpl. unfold cacheStep.
      destruct (Nat.eqb_spec i 0); [lia |].
      destruct (Nat.eqb_spec i (length messages - 1)); [lia |]. done. }
  split.
  { intros msg cache. split; [apply withCache_cacheControl | split; reflexivity]. }
  intros h arr. apply withAnthropicCacheRef_refines.
Qed.

(** C5. Cache annotation is idempotent: annotating an annotated sequence
    gives the annotated sequence, for every sequence and provider; a
    breakpoint written over a breakpoint replaces it. *)
Theorem cache_annotation_idempotent W messages provider :
  _withAnthropicCache W (_withAnthropicCache W messages provider) provider
  = _withAnthropicCache W messages provider ∧
  (∀ msg c1 c2, withCache (withCache msg c1) c2 = withCache msg c2).
Proof.
  split; [| apply withCache_replace].
  destruct (decide (provider ≠ "anthropic" ∨ messages = [])) as [Hnoop | Hrun].
  - by rewrite !(withAnthropicCache_noop W messages provider Hnoop).
  - assert (Hp : provider = "anthropic").
    { destruct (decide (provider = "anthropic")); [done | by destruct Hrun; left]. }
    assert (Hne : messages ≠ []) by (intros ->; apply Hrun; by right).
    subst provider.
    assert (Hne' : _withAnthropicCache W messages "anthropic" ≠ []).
    { intros Hnil. apply Hne, length_zero_iff_nil.
      by rewrite <- (withAnthropicCache_length W messages "anthropic"), Hnil. }
    apply list_eq. intros i.
    rewrite (withAnthropicCache_lookup W _ i Hne').
    rewrite withAnthropicCache_length, (withAnthropicCache_lookup W _ i Hne).
    destruct (messages !! i) as [msg |]; [| done]. simpl.
    by rewrite cacheStep_idemp.
Qed.

End CacheBreakpoints.

Lemma cache_annotation_policy_witness :
  _withAnthropicCache Sample.world Sample.conversation "anthropic" =
    [withCache Sample.msg_system (CACHE_1H Sample.world);
     Sample.msg_user;
     withCache Sample.msg_assistant (CACHE_5M Sample.world)] ∧
  _withAnthropicCache Sample.world Sample.conversation "openai" = Sample.conversation ∧
  ∃ h' arr',
    _withAnthropicCacheRef Sample.world Sample.conversation_heap 4%positive "anthropic"
      = Some (h', arr') ∧
    Sample.conversation_heap ⊆ h'.
Proof.
  destruct (cache_annotation_policy Sample.world Sample.conversation "anthropic")
    as (_ & Hpolicy & _ & Href).
  destruct (cache_annotation_policy Sample.world Sample.conversation "openai")
    as (Hnoop & _).
  destruct (Hpolicy eq_refl ltac:(discriminate)) as (Hlen & Hfirst & Hlast & Hmid).
  split; [| split].
  - apply list_eq. intros [| [| [| i]]].
    + apply (Hfirst Sample.msg_system). reflexivity.
    + apply (Hmid 1%nat). simpl. lia.
    + apply (Hlast Sample.msg_assistant); [reflexivity | discriminate].
    + apply lookup_ge_None_2. rewrite Hlen. simpl. lia.
  - apply Hnoop. left. discriminate.
  - destruct (Href Sample.conversation_heap 4%positive) as (h' & arr' & Hrun & Hsub & _).
    + vm_compute. reflexivity.
    + exists h', arr'. by split.
Defined.

Section Lifecycle.

Context {ModelConfig TokenUsage TokenCost UIMessage : Type}.
Implicit Types W : @World ModelConfig TokenUsage TokenCost UIMessage.
Implicit Types st : @State ModelConfig TokenUsage UIMessage.
Implicit Types agent prior : @AgentManager ModelConfig.
Implicit Types chat ch : AgentChat.

(** *** Errors of resolution and configuration *)

Lemma getResolvedModelSelection_error W projectId sel e :
  _getResolvedModelSelection W projectId sel = Err e → e = Error "No model config found".
Proof.
  unfold _getResolvedModelSelection.
  destruct sel; [discriminate |].
  destruct (getProjectLlmConfigs W projectId !! 0%nat); [discriminate |].
  destruct (getEnvModelSelections W !! 0%nat); [discriminate |]. congruence.
Qed.

Lemma getModelConfig_error W projectId sel e :
  _getModelConfig W projectId sel = Err e → e = Error "No model config found".
Proof.
  unfold _getModelConfig.
  destruct (getProjectLlmConfigByProvider W projectId (provider sel)); [discriminate |].
  destruct (getEnvApiKey W (provider sel)) as [key |]; [| congruence].
  destruct (truthy (Some key)); [discriminate | congruence].
Qed.

(** *** [_disposeAgent] *)

Lemma disposeAgent_agents chatId st :
  _agents (_disposeAgent chatId st).1 = delete chatId (_agents st).
Proof.
  unfold _disposeAgent. destruct (_agents st !! chatId) eqn:Hres; simpl; [done |].
  symmetry. by apply delete_id.
Qed.

Lemma disposeAgent_nextObject chatId st :
  nextObject (_disposeAgent chatId st).1 = nextObject st.
Proof. unfold _disposeAgent. by destruct (_agents st !! chatId). Qed.

Lemma disposeAgent_history chatId st :
  history (_disposeAgent chatId st).1 =
    match _agents st !! chatId with
    | Some prior => Stopped (objectId prior) :: history st
    | None => history st
    end.
Proof. unfold _disposeAgent. by destruct (_agents st !! chatId). Qed.

Lemma disposeAgent_abortedSignals chatId st :
  abortedSignals (_disposeAgent chatId st).1 =
    match _agents st !! chatId with
    | Some prior => {[ _abortController prior ]} ∪ abortedSignals st
    | None => abortedSignals st
    end.
Proof. unfold _disposeAgent. by destruct (_agents st !! chatId). Qed.

Lemma disposeAgent_stops chatId st prior :
  _agents st !! chatId = Some prior → stopped prior (_disposeAgent chatId st).1.
Proof.
  intros Hres. unfold stopped.
  rewrite disposeAgent_history, disposeAgent_abortedSignals, Hres.
  split; [apply elem_of_cons; by left | set_solver].
Qed.

Lemma disposeAgent_keeps_stopped chatId st agent :
  stopped agent st → stopped agent (_disposeAgent chatId st).1.
Proof.
  intros [Hhist Hsig]. unfold stopped.
  rewrite disposeAgent_history, disposeAgent_abortedSignals.
  destruct (_agents st !! chatId); [| done].
  split; [apply elem_of_cons; by right | set_solver].
Qed.

(** *** [create] *)

(** [create] disposes, then either fails with 'No model config found' in the
    state the disposal left, or installs a new object. *)
Lemma create_cases W chat (abortController : nat) sel st :
  create W chat abortController sel st
    = ((_disposeAgent (chat_id chat) st).1, Err (Error "No model config found"))
  ∨ ∃ resolved config,
      _getResolvedModelSelection W (chat_projectId chat) sel = Ok resolved ∧
      _getModelConfig W (chat_projectId chat) resolved = Ok config ∧
      let agent := {| objectId := nextObject st; chat := chat; modelConfig := config;
                      _modelSelection := resolved; _abortController := abortController |} in
      create W chat abortController sel st
        = (installed (_disposeAgent (chat_id chat) st).1 chat agent, Ok agent).
Proof.
  unfold create, create_resumed, bind, await, ret.
  assert (Hok : (_disposeAgent (chat_id chat) st).2 = Ok tt).
  { unfold _disposeAgent. by destruct (_agents st !! chat_id chat). }
  destruct (_disposeAgent (chat_id chat) st) as [st1 r] eqn:Hdisp. simpl in *. subst r.
  destruct (_getResolvedModelSelection W (chat_projectId chat) sel) as [resolved | e] eqn:Hres.
  - destruct (_getModelConfig W (chat_projectId chat) resolved) as [config | e] eqn:Hcfg.
    + right. exists resolved, config. split; [done |]. split; [done |].
      pose proof (disposeAgent_nextObject (chat_id chat) st) as Hnext.
      rewrite Hdisp in Hnext. simpl in Hnext. unfold newAgentManager, agents_set, installed.
      simpl. by rewrite Hnext.
    + left. by rewrite (getModelConfig_error _ _ _ _ Hcfg).
  - left. by rewrite (getResolvedModelSelection_error _ _ _ _ Hres).
Qed.

Lemma stopped_installed st chat agent a :
  stopped a st → stopped a (installed st chat agent).
Proof. done. Qed.

Lemma created_cons (r : result (@AgentManager ModelConfig)) rs :
  created (r :: rs) = created [r] ++ created rs.
Proof. unfold created. simpl. by destruct r. Qed.

Lemma create_preserves_inv W ch (abortController : nat) sel st made :
  registry_inv st made →
  registry_inv (create W ch abortController sel st).1
    (made ++ created [(create W ch abortController sel st).2]).
Proof.
  intros (Hkey & Hmade & Hfresh & Hdup).
  assert (Hgone : ∀ a, a ∈ made → chat_id (chat a) = chat_id ch →
                        stopped a (_disposeAgent (chat_id ch) st).1).
  { intros a Ha Hid. destruct (Hmade a Ha) as [Hres | Hst].
    - apply disposeAgent_stops. by rewrite <- Hid.
    - by apply disposeAgent_keeps_stopped. }
  assert (Hkept : ∀ a, a ∈ made → chat_id (chat a) ≠ chat_id ch →
                        delete (chat_id ch) (_agents st) !! chat_id (chat a) = Some a
                        ∨ stopped a (_disposeAgent (chat_id ch) st).1).
  { intros a Ha Hid. destruct (Hmade a Ha) as [Hres | Hst].
    - left. by rewrite lookup_delete_ne.
    - right. by apply disposeAgent_keeps_stopped. }
  destruct (create_cases W ch abortController sel st)
    as [-> | (resolved & config & _ & _ & ->)]; simpl.
  - rewrite app_nil_r. unfold registry_inv.
    rewrite disposeAgent_agents, disposeAgent_nextObject.
    split; [| split; [| by split]].
    + intros k a Hk. apply lookup_delete_Some in Hk as [_ Hk]. by apply Hkey.
    + intros a Ha. destruct (decide (chat_id (chat a) = chat_id ch)) as [Hid | Hid].
      * right. by apply Hgone.
      * by apply Hkept.
  - unfold registry_inv, installed. simpl.
    rewrite disposeAgent_agents, disposeAgent_nextObject.
    split; [| split; [| split]].
    + intros k a Hk. apply lookup_insert_Some in Hk as [[<- <-] | [Hne Hk]].
      * split; [done |]. apply elem_of_app. right. apply elem_of_cons. by left.
      * apply lookup_delete_Some in Hk as [_ Hk].
        destruct (Hkey k a Hk) as [Hid Ha]. split; [done |]. apply elem_of_app. by left.
    + intros a Ha. apply elem_of_app in Ha as [Ha | Ha].
      * destruct (decide (chat_id (chat a) = chat_id ch)) as [Hid | Hid].
        -- right. by apply Hgone.
        -- destruct (Hkept a Ha Hid) as [Hres | Hst]; [left | by right].
           by rewrite lookup_insert_ne.
      * apply elem_of_cons in Ha as [-> | Ha]; [| by apply elem_of_nil in Ha].
        left. simpl. apply lookup_insert_eq.
    + intros a Ha. apply elem_of_app in Ha as [Ha | Ha].
      * specialize (Hfresh a Ha). lia.
      * apply elem_of_cons in Ha as [-> | Ha]; [simpl; lia | by apply elem_of_nil in Ha].
    + rewrite fmap_app. apply NoDup_app. split; [done |]. split.
      * intros x Hx Hnew. simpl in Hnew. apply elem_of_cons in Hnew as [-> | Hnew];
          [| by apply elem_of_nil in Hnew].
        apply list_elem_of_fmap in Hx as (a & Hid & Ha). specialize (Hfresh a Ha). lia.
      * simpl. apply NoDup_singleton.
Qed.

Local Arguments created : simpl never.

Lemma run_creates_inv (calls : list (@CreateCall ModelConfig TokenUsage TokenCost UIMessage)) :
  ∀ st made,
    registry_inv st made →
    registry_inv (run_creates calls st).1 (made ++ created (run_creates calls st).2).
Proof.
  induction calls as [| c rest IH]; intros st made Hinv; simpl.
  - by rewrite app_nil_r.
  - pose proof (create_preserves_inv (call_world c) (call_chat c) (call_abortController c)
                  (call_modelSelection c) st made Hinv) as Hstep.
    destruct (create (call_world c) (call_chat c) (call_abortController c)
                (call_modelSelection c) st) as [st1 r]. simpl in Hstep.
    specialize (IH st1 _ Hstep).
    destruct (run_creates rest st1) as [st2 rs]. simpl in *.
    by rewrite created_cons, app_assoc.
Qed.

Lemma registry_inv_initial :
  registry_inv (initial_state : @State ModelConfig TokenUsage UIMessage) [].
Proof.
  unfold registry_inv, initial_state. simpl. split; [| split; [| split]].
  - intros k a Hk. by rewrite lookup_empty in Hk.
  - intros a Ha. by apply elem_of_nil in Ha.
  - intros a Ha. by apply elem_of_nil in Ha.
  - constructor.
Qed.

Lemma run_creates_snoc (before : list (@CreateCall ModelConfig TokenUsage TokenCost UIMessage))
    (call : CreateCall) :
  ∀ st,
    run_creates (before ++ [call]) st =
      (let '(st1, rs) := run_creates before st in
       let '(st2, r) := create (call_world call) (call_chat call)
                          (call_abortController call) (call_modelSelection call) st1 in
       (st2, rs ++ [r])).
Proof.
  induction before as [| c rest IH]; intros st; simpl.
  - by destruct (create _ _ _ _ st).
  - destruct (create (call_world c) _ _ _ st) as [st1 r]. rewrite IH.
    destruct (run_creates rest st1) as [st2 rs].
    by destruct (create (call_world call) _ _ _ st2).
Qed.

(** After [create], the registry holds the returned session under the
    conversation id, or nothing when the call failed. *)
Lemma create_residency W chat (abortController : nat) sel st :
  match (create W chat abortController sel st).2 with
  | Ok agent => _agents (create W chat abortController sel st).1 !! chat_id chat = Some agent
  | Err e => e = Error "No model config found" ∧
             _agents (create W chat abortController sel st).1 !! chat_id chat = None
  end.
Proof.
  destruct (create_cases W chat abortController sel st)
    as [-> | (resolved & config & _ & _ & ->)]; simpl.
  - split; [done |]. rewrite disposeAgent_agents. apply lookup_delete_eq.
  - apply lookup_insert_eq.
Qed.

(** C1 (amended). After any sequence of [create] calls, each settled
    before the next starts, from the empty registry: the conversation of the
    last call has the session that call returned as its resident session
    when the call succeeded, and no resident session when it failed with
    'No model config found'; a resident session is stored under its own
    conversation id, so a conversation has at most one; every session the
    calls returned is either the resident session of its conversation or
    has had [stop] invoked; the returned sessions are pairwise distinct
    objects. *)
Theorem create_sequence_residency
    (calls : list (@CreateCall ModelConfig TokenUsage TokenCost UIMessage)) :
  (∀ call r,
     last calls = Some call →
     last (run_creates calls initial_state).2 = Some r →
     match r with
     | Ok agent =>
         _agents (run_creates calls initial_state).1 !! chat_id (call_chat call) = Some agent
     | Err e =>
         e = Error "No model config found" ∧
         _agents (run_creates calls initial_state).1 !! chat_id (call_chat call) = None
     end) ∧
  (∀ k a,
     _agents (run_creates calls initial_state).1 !! k = Some a →
     chat_id (chat a) = k ∧ a ∈ created (run_creates calls initial_state).2) ∧
  (∀ a,
     a ∈ created (run_creates calls initial_state).2 →
     _agents (run_creates calls initial_state).1 !! chat_id (chat a) = Some a
     ∨ stopped a (run_creates calls initial_state).1) ∧
  NoDup (objectId <$> created (run_creates calls initial_state).2).
Proof.
  pose proof (run_creates_inv calls initial_state [] registry_inv_initial)
    as (Hkey & Hmade & _ & Hdup).
  rewrite app_nil_l in Hkey, Hmade, Hdup.
  split; [| split; [exact Hkey | split; [exact Hmade | exact Hdup]]].
  intros call r Hcall Hr.
  apply last_Some in Hcall as [before ->].
  rewrite run_creates_snoc in Hr |- *.
  destruct (run_creates before initial_state) as [st1 rs].
  pose proof (create_residency (call_world call) (call_chat call)
                (call_abortController call) (call_modelSelection call) st1) as Hres.
  destruct (create (call_world call) (call_chat call) (call_abortController call)
              (call_modelSelection call) st1) as [st2 r'].
  simpl in *. rewrite last_snoc in Hr. by injection Hr as <-.
Qed.

(** C9. A [create] that fails while a session of the same conversation is
    resident fails with 'No model config found', after that session was
    stopped and removed: the registry is the one before the call without the
    conversation's entry. *)
Theorem failed_create_evicts W ch (abortController : nat) sel st st' e prior :
  _agents st !! chat_id ch = Some prior →
  create W ch abortController sel st = (st', Err e) →
  e = Error "No model config found" ∧
  _agents st' !! chat_id ch = None ∧
  _agents st' = delete (chat_id ch) (_agents st) ∧
  stopped prior st'.
Proof.
  intros Hprior Hcreate.
  destruct (create_cases W ch abortController sel st)
    as [Hfail | (resolved & config & _ & _ & Hok)].
  - rewrite Hfail in Hcreate. injection Hcreate as <- <-.
    rewrite disposeAgent_agents.
    split; [done |]. split; [apply lookup_delete_eq |]. split; [done |].
    by apply disposeAgent_stops.
  - simpl in Hok. rewrite Hok in Hcreate. discriminate.
Qed.

End Lifecycle.

Lemma create_sequence_residency_witness :
  ∃ second_agent,
    last (run_creates [Sample.first_call; Sample.second_call] initial_state).2
      = Some (Ok second_agent) ∧
    _agents (run_creates [Sample.first_call; Sample.second_call] initial_state).1 !! "c1"
      = Some second_agent ∧
    stopped Sample.first_agent
      (run_creates [Sample.first_call; Sample.second_call] initial_state).1.
Proof.
  destruct (create_sequence_residency [Sample.first_call; Sample.second_call])
    as (Hlast & _ & Hmade & _).
  eexists. split; [vm_compute; reflexivity |]. split.
  - refine (Hlast Sample.second_call (Ok _) eq_refl _). vm_compute. reflexivity.
  - destruct (Hmade Sample.first_agent) as [Hres | Hst].
    + vm_compute. apply elem_of_cons. by left.
    + vm_compute in Hres. discriminate.
    + exact Hst.
Defined.

(** C1 as stated fails: a call that succeeds followed by a call for the same
    conversation that fails leaves no resident session. *)
Lemma create_sequence_counterexample :
  ¬ (∀ (calls : list (@CreateCall (LlmProvider * ProviderSettings * string) Z Z string))
       (c : string),
       calls ≠ [] →
       Forall (λ call, chat_id (call_chat call) = c) calls →
       ∃ agent, _agents (run_creates calls initial_state).1 !! c = Some agent).
Proof.
  intros Hclaim.
  destruct (Hclaim [Sample.first_call; Sample.failing_call] "c1") as [agent Hres].
  - discriminate.
  - repeat constructor.
  - vm_compute in Hres. discriminate.
Qed.

Lemma failed_create_evicts_witness :
  _agents (create Sample.world Sample.chat_c1 11%nat (Some Sample.mistral_selection)
             Sample.state_one).1 !! "c1" = None ∧
  stopped Sample.first_agent
    (create Sample.world Sample.chat_c1 11%nat (Some Sample.mistral_selection)
       Sample.state_one).1.
Proof.
  destruct (failed_create_evicts Sample.world Sample.chat_c1 11%nat
              (Some Sample.mistral_selection) Sample.state_one
              (create Sample.world Sample.chat_c1 11%nat (Some Sample.mistral_selection)
                 Sample.state_one).1
              (Error "No model config found") Sample.first_agent)
    as (_ & Hnone & _ & Hstopped).
  - vm_compute. reflexivity.
  - vm_compute. reflexivity.
  - by split.
Defined.

Section Session.

Context {ModelConfig TokenUsage TokenCost UIMessage : Type}.
Implicit Types W : @World ModelConfig TokenUsage TokenCost UIMessage.
Implicit Types st : @State ModelConfig TokenUsage UIMessage.
Implicit Types agent a : @AgentManager ModelConfig.
Implicit Types run : @StreamRun UIMessage.
Implicit Types e : FinishEvent UIMessage.

(** *** [stop] *)

Lemma stop_iter_fields agent st (n : nat) :
  _agents (Nat.iter (S n) (λ s, (stop agent s).1) st) = _agents st ∧
  abortedSignals (Nat.iter (S n) (λ s, (stop agent s).1) st)
    = {[ _abortController agent ]} ∪ abortedSignals st ∧
  upserted (Nat.iter (S n) (λ s, (stop agent s).1) st) = upserted st ∧
  nextObject (Nat.iter (S n) (λ s, (stop agent s).1) st) = nextObject st.
Proof.
  induction n as [| n IH]; [done |].
  rewrite Nat.iter_succ.
  remember (Nat.iter (S n) (λ s, (stop agent s).1) st) as st1 eqn:Hst1.
  destruct IH as (IHa & IHs & IHu & IHn). unfold stop. simpl.
  rewrite IHa, IHs, IHu, IHn. split; [done |]. split; [| done].
  apply set_eq. intros x. rewrite !elem_of_union. tauto.
Qed.

Lemma dispose_count_stop agent a st :
  dispose_count a (stop agent st).1 = dispose_count a st.
Proof. unfold dispose_count, stop. simpl. by rewrite filter_cons_False. Qed.

(** C8. [stop] returns normally; any number of further calls leaves the
    state (registry, abort signals, persisted calls) as one call leaves it;
    [stop] does not change the registry and invokes no disposal callback. *)
Theorem stop_idempotent_keeps_registry agent st (n : nat) :
  (stop agent st).2 = Ok tt ∧
  observable (Nat.iter (S n) (λ s, (stop agent s).1) st) = observable (stop agent st).1 ∧
  _agents (stop agent st).1 = _agents st ∧
  (∀ a, dispose_count a (stop agent st).1 = dispose_count a st) ∧
  (∀ a, dispose_count a (Nat.iter (S n) (λ s, (stop agent s).1) st) = dispose_count a st).
Proof.
  split; [done |]. split.
  { destruct (stop_iter_fields agent st n) as (Ha & Hs & Hu & Hn).
    unfold observable. by rewrite Ha, Hs, Hu, Hn. }
  split; [done |]. split; [intros a; apply dispose_count_stop |].
  intros a. induction n as [| n IH]; [apply dispose_count_stop |].
  rewrite Nat.iter_succ.
  remember (Nat.iter (S n) (λ s, (stop agent s).1) st) as st1 eqn:Hst1.
  by rewrite dispose_count_stop.
Qed.

(** *** [generate] *)

Lemma dispose_count_onDispose agent st :
  dispose_count agent (_onDispose agent st).1 = S (dispose_count agent st).
Proof. unfold dispose_count, _onDispose. simpl. by rewrite filter_cons_True. Qed.

(** When the generation resolves, [generate] invokes the disposal callback
    once and removes the entry of the conversation. *)
Lemma generate_resolved_disposes_once W agent (messages : list UIMessage)
    agentGenerate (elapsed : Z) st initial result :
  _buildInitialMessages W messages (provider (_modelSelection agent)) = Ok initial →
  agentGenerate initial = Ok result →
  is_ok (generate W agent messages agentGenerate elapsed st).2 = true ∧
  dispose_count agent (generate W agent messages agentGenerate elapsed st).1
    = S (dispose_count agent st) ∧
  _agents (generate W agent messages agentGenerate elapsed st).1
    = delete (chat_id (chat agent)) (_agents st).
Proof.
  intros Hbuild Hgen. unfold generate, bind, await, ret. rewrite Hbuild, Hgen. simpl.
  split; [done |]. split; [| done].
  apply (dispose_count_onDispose agent st).
Qed.

(** C2 (the failing case). When the generation rejects, for a provider
    failure or for the abort signal, [generate] rethrows without invoking the
    disposal callback: the state is the one before the call, so the disposal
    count is unchanged and a resident session stays in the registry. *)
Theorem generate_rejection_skips_dispose W agent (messages : list UIMessage)
    (err : exn) (elapsed : Z) st :
  (generate W agent messages (λ _, Err err) elapsed st).1 = st ∧
  is_ok (generate W agent messages (λ _, Err err) elapsed st).2 = false ∧
  dispose_count agent (generate W agent messages (λ _, Err err) elapsed st).1
    = dispose_count agent st ∧
  _agents (generate W agent messages (λ _, Err err) elapsed st).1 = _agents st.
Proof.
  assert (Hst : (generate W agent messages (λ _, Err err) elapsed st).1 = st
                ∧ is_ok (generate W agent messages (λ _, Err err) elapsed st).2 = false).
  { unfold generate, bind, await.
    by destruct (_buildInitialMessages W messages (provider (_modelSelection agent))). }
  destruct Hst as [Hst Hok]. by rewrite Hst.
Qed.

(** C10. When the generation resolves with no finish reason, the result of
    [generate] has finish reason 'stop'; in general it has the reported
    finish reason when there is one. *)
Theorem generate_default_finish_reason W agent (messages : list UIMessage)
    agentGenerate (elapsed : Z) st initial result :
  _buildInitialMessages W messages (provider (_modelSelection agent)) = Ok initial →
  agentGenerate initial = Ok result →
  ∃ out,
    (generate W agent messages agentGenerate elapsed st).2 = Ok out ∧
    run_finishReason out = default FinishStop (gen_finishReason result) ∧
    (gen_finishReason result = None → run_finishReason out = FinishStop).
Proof.
  intros Hbuild Hgen. unfold generate, bind, await, ret. rewrite Hbuild, Hgen. simpl.
  eexists. split; [reflexivity |]. simpl. split; [done |]. by intros ->.
Qed.

(** *** [stream] *)

(** After the [onError] calls the captured error is the last one passed, and
    [result] is untouched. *)
Lemma onErrors_locals (errs : list exn) :
  ∀ (locals : StreamLocals) (texts : list string),
    (foldl (λ acc err, let '(l, ts) := acc in
                       let '(l', text) := onError err l in (l', ts ++ [text]))
           (locals, texts) errs).1
    = {| error := match last errs with Some err => Some err | None => error locals end;
         result_ := result_ locals |}.
Proof.
  induction errs as [| err rest IH]; intros locals texts.
  - simpl. by destruct locals.
  - simpl. rewrite IH. simpl. destruct rest as [| err' rest']; [done |].
    change (last (err :: err' :: rest')) with (last (err' :: rest')).
    destruct (last (err' :: rest')) eqn:Hlast; [done |].
    by apply last_None in Hlast.
Qed.

(** What [stream] does once [execute] has obtained the result of the agent:
    the state is the one [onFinish] leaves, with the last stream error as the
    captured error. *)
Lemma stream_executed W agent (uiMessages : list UIMessage) (sendNewChatData : bool)
    run st messages result :
  _buildInitialMessages W uiMessages (provider (_modelSelection agent)) = Ok messages →
  agentStream run messages = Ok result →
  (stream W agent uiMessages sendNewChatData run st).1
    = (onFinish W agent (finishEvent run)
         {| error := last (streamErrors run); result_ := Some result |}
         (upsertOutcome run) st).1 ∧
  (stream W agent uiMessages sendNewChatData run st).2.2
    = (onFinish W agent (finishEvent run)
         {| error := last (streamErrors run); result_ := Some result |}
         (upsertOutcome run) st).2.
Proof.
  intros Hbuild Hstream. unfold stream, execute. rewrite Hbuild, Hstream. simpl.
  unfold onErrors.
  pose proof (onErrors_locals (streamErrors run)
                {| error := None; result_ := Some result |} []) as Hlocals.
  destruct (foldl _ _ (streamErrors run)) as [locals2 texts]. simpl in Hlocals.
  assert (Heq : locals2 = {| error := last (streamErrors run); result_ := Some result |}).
  { rewrite Hlocals. by destruct (last (streamErrors run)). }
  rewrite Heq.
  by destruct (onFinish W agent (finishEvent run) _ (upsertOutcome run) st).
Qed.

(** [onFinish] with the usage at hand: one call of [upsertMessage], then the
    disposal when the store accepted the call. *)
Lemma onFinish_persists W agent e (locals : StreamLocals) (outcome : result unit) st
    result usage :
  result_ locals = Some result →
  totalUsage result = Ok usage →
  upserted (onFinish W agent e locals outcome st).1
    = {| up_message := responseMessage e;
         up_chatId := chat_id (chat agent);
         up_stopReason :=
           if isAborted e then Some interrupted else finished <$> finishReason e;
         up_error := error locals;
         up_tokenUsage := convertToTokenUsage W usage;
         up_llmProvider := provider (_modelSelection agent);
         up_llmModelId := modelId (_modelSelection agent) |} :: upserted st ∧
  (onFinish W agent e locals outcome st).2 = outcome ∧
  dispose_count agent (onFinish W agent e locals outcome st).1
    = (if is_ok outcome then S (dispose_count agent st) else dispose_count agent st).
Proof.
  intros Hresult Husage. unfold onFinish, bind, await. rewrite Hresult, Husage.
  unfold upsertMessage. destruct outcome as [[] | err]; simpl.
  - split; [done |]. split; [done |]. unfold dispose_count. simpl. by rewrite filter_cons_True.
  - done.
Qed.

(** Without the result of the agent, or when its usage promise rejects,
    [onFinish] throws before persisting and before the disposal. *)
Lemma onFinish_throws_early W agent e (locals : StreamLocals) (outcome : result unit) st :
  match result_ locals with
  | Some result => is_ok (totalUsage result) = false
  | None => True
  end →
  (onFinish W agent e locals outcome st).1 = st ∧
  is_ok (onFinish W agent e locals outcome st).2 = false.
Proof.
  unfold onFinish, bind, await, throw. destruct (result_ locals) as [result |]; [| done].
  by destruct (totalUsage result).
Qed.

(** What a stream run persists, once [execute] has the result of the agent
    and its usage is available: the call of [onFinish], with the last error
    the stream reported as the error. *)
Lemma stream_persists W agent (uiMessages : list UIMessage) (sendNewChatData : bool)
    run st messages result usage :
  _buildInitialMessages W uiMessages (provider (_modelSelection agent)) = Ok messages →
  agentStream run messages = Ok result →
  totalUsage result = Ok usage →
  ∃ call,
    upserted (stream W agent uiMessages sendNewChatData run st).1 = call :: upserted st ∧
    up_stopReason call
      = (if isAborted (finishEvent run) then Some interrupted
         else finished <$> finishReason (finishEvent run)) ∧
    up_error call = last (streamErrors run) ∧
    (stream W agent uiMessages sendNewChatData run st).2.2 = upsertOutcome run ∧
    dispose_count agent (stream W agent uiMessages sendNewChatData run st).1
      = (if is_ok (upsertOutcome run) then S (dispose_count agent st)
         else dispose_count agent st).
Proof.
  intros Hbuild Hstream Husage.
  destruct (stream_executed W agent uiMessages sendNewChatData run st messages result
              Hbuild Hstream) as [Hst Hres].
  destruct (onFinish_persists W agent (finishEvent run)
              {| error := last (streamErrors run); result_ := Some result |}
              (upsertOutcome run) st result usage eq_refl Husage)
    as (Hup & Hsettled & Hcount).
  eexists. rewrite Hst, Hres. split; [exact Hup |]. simpl.
  split; [done |]. split; [done |]. by split.
Qed.

(** When [onFinish] has the usage at hand it persists one message.  Its
    stop reason is 'interrupted' when the run was aborted, whatever finish
    reason the provider reported, and the provider's finish reason
    otherwise.  The call carries the response message, the conversation id
    and the error captured by [onError], and [onFinish] settles as the store
    does, for an aborted run as for any other: cancellation raises
    nothing. *)
Theorem onFinish_stop_reason W agent e (locals : StreamLocals) (outcome : result unit) st
    result usage :
  result_ locals = Some result →
  totalUsage result = Ok usage →
  ∃ call,
    upserted (onFinish W agent e locals outcome st).1 = call :: upserted st ∧
    up_message call = responseMessage e ∧
    up_chatId call = chat_id (chat agent) ∧
    (isAborted e = true → up_stopReason call = Some interrupted) ∧
    (isAborted e = false → up_stopReason call = finished <$> finishReason e) ∧
    up_error call = error locals ∧
    (onFinish W agent e locals outcome st).2 = outcome.
Proof.
  intros Hresult Husage.
  destruct (onFinish_persists W agent e locals outcome st result usage Hresult Husage)
    as (Hup & Hsettled & _).
  eexists. split; [exact Hup |]. simpl.
  split; [done |]. split; [done |].
  split; [by intros -> |]. split; [by intros -> | by split].
Qed.

End Session.

Lemma generate_default_finish_reason_witness :
  ∃ out,
    (generate Sample.world Sample.first_agent ["hi"] (λ _, Ok Sample.silent_result) 120
       Sample.state_one).2 = Ok out ∧
    run_finishReason out = FinishStop.
Proof.
  destruct (generate_default_finish_reason Sample.world Sample.first_agent ["hi"]
              (λ _, Ok Sample.silent_result) 120 Sample.state_one
              (_withAnthropicCache Sample.world
                 [Sample.msg_system; Sample.msg_user] "openai")
              Sample.silent_result)
    as (out & Hout & _ & Hstop).
  - reflexivity.
  - reflexivity.
  - exists out. split; [exact Hout | apply Hstop; reflexivity].
Defined.

Lemma onFinish_stop_reason_witness :
  ∃ call,
    upserted (onFinish Sample.world Sample.first_agent
                (finishEvent Sample.aborted_run) Sample.finish_locals (Ok tt)
                Sample.state_one).1 = [call] ∧
    up_stopReason call = Some interrupted ∧
    up_error call = None.
Proof.
  destruct (onFinish_stop_reason Sample.world Sample.first_agent
              (finishEvent Sample.aborted_run) Sample.finish_locals (Ok tt)
              Sample.state_one
              {| totalUsage := Ok {| inputTokens := 7; outputTokens := 1; totalTokens := 8 |} |}
              {| inputTokens := 7; outputTokens := 1; totalTokens := 8 |})
    as (call & Hup & _ & _ & Haborted & _ & Herror & _).
  - reflexivity.
  - reflexivity.
  - exists call. split; [exact Hup |]. split; [apply Haborted; reflexivity | exact Herror].
Defined.

(** The preempted session of [Sample.first_call] finishing after
    [Sample.second_call]: its disposal callback deletes the entry of the
    conversation, which by then is the entry of the second session. *)
Lemma stale_dispose_evicts_successor :
  is_Some (get "c1" (run_creates [Sample.first_call; Sample.second_call] initial_state).1) ∧
  get "c1" (_onDispose Sample.first_agent
              (run_creates [Sample.first_call; Sample.second_call] initial_state).1).1
    = None.
Proof. split; [vm_compute; eexists; reflexivity | vm_compute; reflexivity]. Qed.

(** Two calls of [create] for one conversation that overlap: both run
    their disposal before either is resumed.  The first session is then
    replaced without [stop]: it is neither resident nor stopped. *)
Lemma overlapping_creates_skip_stop :
  ∃ st first second,
    bind (_disposeAgent "c1")
      (λ _, bind (_disposeAgent "c1")
         (λ _, bind (create_resumed Sample.world Sample.chat_c1 10%nat None)
            (λ a, bind (create_resumed Sample.world Sample.chat_c1 12%nat None)
               (λ b, ret (a, b))))) initial_state
      = (st, Ok (first, second)) ∧
    get "c1" st = Some second ∧
    first ≠ second ∧
    ¬ stopped first st.
Proof.
  eexists _, _, _. split; [vm_compute; reflexivity |].
  split; [vm_compute; reflexivity |]. split; [discriminate |].
  intros [Hhist _]. vm_compute in Hhist. by apply elem_of_nil in Hhist.
Qed.

(** When the sequence grows, the breakpoint of the former last message
    stays: interior messages are returned as they are. *)
Lemma grown_sequence_keeps_leaf_breakpoint :
  ∃ out,
    _withAnthropicCache Sample.world
      (_withAnthropicCache Sample.world [Sample.msg_system; Sample.msg_user] "anthropic"
         ++ [Sample.msg_assistant]) "anthropic" !! 1%nat = Some out ∧
    cacheControl out = Some (CACHE_5M Sample.world).
Proof. eexists. split; vm_compute; reflexivity. Qed.

(** The session of [Sample.state_one] is still resident after a [generate]
    whose generation rejects. *)
Lemma generate_rejection_leaks_session :
  get "c1" (generate Sample.world Sample.first_agent ["hi"]
              (λ _, Err (Rejected "provider unavailable")) 120 Sample.state_one).1
    = Some Sample.first_agent ∧
  dispose_count Sample.first_agent
    (generate Sample.world Sample.first_agent ["hi"]
       (λ _, Err (Rejected "provider unavailable")) 120 Sample.state_one).1 = 0%nat.
Proof. split; vm_compute; reflexivity. Qed.

(** * Further properties of the registry *)

Section Registry.

Context {ModelConfig TokenUsage TokenCost UIMessage : Type}.
Implicit Types W : @World ModelConfig TokenUsage TokenCost UIMessage.
Implicit Types st : @State ModelConfig TokenUsage UIMessage.
Implicit Types agent prior a b : @AgentManager ModelConfig.
Implicit Types ch : AgentChat.

Lemma disposeAgent_upserted chatId st :
  upserted (_disposeAgent chatId st).1 = upserted st.
Proof. unfold _disposeAgent. by destruct (_agents st !! chatId). Qed.

Lemma disposeAgent_dispose_count chatId st a :
  dispose_count a (_disposeAgent chatId st).1 = dispose_count a st.
Proof.
  unfold dispose_count. rewrite disposeAgent_history.
  destruct (_agents st !! chatId); [| done]. by rewrite filter_cons_False.
Qed.

Lemma disposeAgent_absent chatId st :
  _agents st !! chatId = None → _disposeAgent chatId st = (st, Ok tt).
Proof. intros Hnone. unfold _disposeAgent. by rewrite Hnone. Qed.

(** What a successful [create] returns and leaves, from [create_cases]. *)
Lemma create_ok_inv W ch (abortController : nat) sel st st' agent :
  create W ch abortController sel st = (st', Ok agent) →
  ∃ resolved config,
    _getResolvedModelSelection W (chat_projectId ch) sel = Ok resolved ∧
    _getModelConfig W (chat_projectId ch) resolved = Ok config ∧
    agent = {| objectId := nextObject st; chat := ch; modelConfig := config;
               _modelSelection := resolved; _abortController := abortController |} ∧
    st' = installed (_disposeAgent (chat_id ch) st).1 ch agent.
Proof.
  intros Hcreate.
  destruct (create_cases W ch abortController sel st)
    as [Hfail | (resolved & config & Hres & Hcfg & Hok)].
  - rewrite Hfail in Hcreate. discriminate.
  - simpl in Hok. rewrite Hok in Hcreate. injection Hcreate as <- <-.
    by exists resolved, config.
Qed.

(** X1. [create] for one conversation leaves the sessions of every other
    conversation in place, and persists nothing. *)
Theorem create_other_conversations W ch (abortController : nat) sel st (k : string) :
  k ≠ chat_id ch →
  _agents (create W ch abortController sel st).1 !! k = _agents st !! k ∧
  upserted (create W ch abortController sel st).1 = upserted st.
Proof.
  intros Hk.
  destruct (create_cases W ch abortController sel st)
    as [-> | (resolved & config & _ & _ & ->)]; simpl.
  - rewrite disposeAgent_agents, disposeAgent_upserted. by rewrite lookup_delete_ne.
  - rewrite disposeAgent_agents, disposeAgent_upserted.
    by rewrite lookup_insert_ne, lookup_delete_ne.
Qed.

(** X2. The session a successful [create] returns is a new object bound to the
    conversation and to the caller's abort controller; its selection is the
    one the resolver returns and its configuration the one the loader
    returns for that selection; [get] finds it; its model id is the explicit
    one when the caller gave a selection; only the user of the conversation
    passes the owner check. *)
Theorem create_returns_bound_session W ch (abortController : nat) sel st st' agent :
  create W ch abortController sel st = (st', Ok agent) →
  chat agent = ch ∧
  _abortController agent = abortController ∧
  objectId agent = nextObject st ∧
  nextObject st' = S (nextObject st) ∧
  _getResolvedModelSelection W (chat_projectId ch) sel = Ok (_modelSelection agent) ∧
  _getModelConfig W (chat_projectId ch) (_modelSelection agent) = Ok (modelConfig agent) ∧
  get (chat_id ch) st' = Some agent ∧
  (∀ s, sel = Some s → getModelId agent = modelId s) ∧
  (∀ u, checkIsUserOwner agent u = true ↔ u = chat_userId ch).
Proof.
  intros Hcreate.
  destruct (create_ok_inv _ _ _ _ _ _ _ Hcreate) as (resolved & config & Hres & Hcfg & -> & ->).
  simpl. split; [done |]. split; [done |]. split; [done |].
  split; [by rewrite disposeAgent_nextObject |].
  split; [done |]. split; [done |].
  split; [unfold get, installed; simpl; apply lookup_insert_eq |].
  split.
  - intros s ->. unfold getModelId. simpl. simpl in Hres. by injection Hres as <-.
  - intros u. unfold checkIsUserOwner. simpl.
    destruct (String.eqb_spec (chat_userId ch) u); split; congruence.
Qed.

(** X3. [create] aborts the controller of the session it replaces and no other,
    and never invokes a disposal callback: the replaced session leaves the
    registry without one. *)
Theorem create_aborts_only_prior W ch (abortController : nat) sel st :
  abortedSignals (create W ch abortController sel st).1
    = match _agents st !! chat_id ch with
      | Some prior => {[ _abortController prior ]} ∪ abortedSignals st
      | None => abortedSignals st
      end ∧
  (∀ a, dispose_count a (create W ch abortController sel st).1 = dispose_count a st).
Proof.
  destruct (create_cases W ch abortController sel st)
    as [-> | (resolved & config & _ & _ & ->)]; simpl;
    (split; [apply disposeAgent_abortedSignals | intros a; apply disposeAgent_dispose_count]).
Qed.

(** X4. A caller that passes the abort controller of the resident session again
    gets a session whose signal is already aborted: the disposal of the
    resident session aborted the shared controller. *)
Theorem create_with_resident_controller W ch (abortController : nat) sel st st' prior agent :
  _agents st !! chat_id ch = Some prior →
  _abortController prior = abortController →
  create W ch abortController sel st = (st', Ok agent) →
  get (chat_id ch) st' = Some agent ∧
  _abortController agent ∈ abortedSignals st'.
Proof.
  intros Hprior Hctrl Hcreate.
  destruct (create_ok_inv _ _ _ _ _ _ _ Hcreate) as (resolved & config & _ & _ & -> & ->).
  split; [unfold get, installed; simpl; apply lookup_insert_eq |].
  simpl. rewrite disposeAgent_abortedSignals, Hprior, Hctrl.
  apply elem_of_union. left. by apply elem_of_singleton.
Qed.

(** X5. A [create] that fails for a conversation without resident session
    changes nothing. *)
Theorem failed_create_without_session W ch (abortController : nat) sel st st' e :
  _agents st !! chat_id ch = None →
  create W ch abortController sel st = (st', Err e) →
  st' = st.
Proof.
  intros Hnone Hcreate.
  destruct (create_cases W ch abortController sel st)
    as [Hfail | (resolved & config & _ & _ & Hok)].
  - rewrite Hfail in Hcreate. injection Hcreate as <- _.
    by rewrite (disposeAgent_absent _ _ Hnone).
  - simpl in Hok. rewrite Hok in Hcreate. discriminate.
Qed.

(** X6. [_disposeAgent] does nothing for a conversation without resident
    session; otherwise it stops the resident session and removes its entry
    only, without invoking the disposal callback. *)
Theorem disposeAgent_effect (chatId : string) st :
  (_agents st !! chatId = None → _disposeAgent chatId st = (st, Ok tt)) ∧
  (∀ prior, _agents st !! chatId = Some prior →
     (_disposeAgent chatId st).2 = Ok tt ∧
     _agents (_disposeAgent chatId st).1 !! chatId = None ∧
     (∀ k, k ≠ chatId → _agents (_disposeAgent chatId st).1 !! k = _agents st !! k) ∧
     stopped prior (_disposeAgent chatId st).1 ∧
     (∀ a, dispose_count a (_disposeAgent chatId st).1 = dispose_count a st)).
Proof.
  split; [apply disposeAgent_absent |].
  intros prior Hprior.
  split; [unfold _disposeAgent; by rewrite Hprior |].
  rewrite disposeAgent_agents.
  split; [apply lookup_delete_eq |].
  split; [intros k Hk; by rewrite lookup_delete_ne |].
  split; [by apply disposeAgent_stops | intros a; apply disposeAgent_dispose_count].
Qed.

(** X7. The disposal callback of a session deletes by conversation id.  When a
    session was replaced by a second [create] for its conversation, its
    callback removes the entry of the successor: the conversation is left
    without resident session, although the successor was not stopped by the
    callback. *)
Theorem stale_dispose_after_recreate W W' ch (c1 c2 : nat) sel1 sel2 st st1 st2 a b :
  create W ch c1 sel1 st = (st1, Ok a) →
  create W' ch c2 sel2 st1 = (st2, Ok b) →
  objectId a ≠ objectId b ∧
  get (chat_id ch) st2 = Some b ∧
  stopped a st2 ∧
  get (chat_id ch) (_onDispose a st2).1 = None ∧
  abortedSignals (_onDispose a st2).1 = abortedSignals st2 ∧
  history (_onDispose a st2).1 = Disposed (objectId a) :: history st2.
Proof.
  intros Hfirst Hsecond.
  destruct (create_ok_inv _ _ _ _ _ _ _ Hfirst) as (r1 & cfg1 & _ & _ & -> & ->).
  destruct (create_ok_inv _ _ _ _ _ _ _ Hsecond) as (r2 & cfg2 & _ & _ & -> & ->).
  split; [simpl; rewrite disposeAgent_nextObject; lia |].
  split; [unfold get, installed; simpl; apply lookup_insert_eq |].
  split.
  { apply stopped_installed, disposeAgent_stops. simpl. apply lookup_insert_eq. }
  split; [| done].
  unfold get, _onDispose. simpl. apply lookup_delete_eq.
Qed.

(** X8. The part of [create] that runs after its first [await] stops nothing:
    it installs its session over whatever is resident.  A session that
    became resident while the call was suspended is replaced without
    [stop]. *)
Theorem create_resumed_replaces_without_stop W ch (abortController : nat) sel st st' prior agent :
  _agents st !! chat_id ch = Some prior →
  objectId prior < nextObject st →
  create_resumed W ch abortController sel st = (st', Ok agent) →
  get (chat_id ch) st' = Some agent ∧
  agent ≠ prior ∧
  history st' = history st ∧
  abortedSignals st' = abortedSignals st.
Proof.
  intros Hprior Hfresh. unfold create_resumed, bind, await, ret.
  destruct (_getResolvedModelSelection W (chat_projectId ch) sel) as [resolved | e];
    [| discriminate].
  destruct (_getModelConfig W (chat_projectId ch) resolved) as [config | e];
    [| discriminate].
  unfold newAgentManager, agents_set. simpl. intros [= <- <-]. simpl.
  split; [unfold get; simpl; apply lookup_insert_eq |].
  split; [| done]. intros <-. simpl in Hfresh. lia.
Qed.

End Registry.

Lemma create_other_conversations_witness :
  _agents (create Sample.world Sample.chat_c1 30%nat None Scenario.state_two).1 !! "c2"
    = Some Scenario.agent_c2.
Proof.
  destruct (create_other_conversations Sample.world Sample.chat_c1 30%nat None
              Scenario.state_two "c2") as [Hkept _].
  - discriminate.
  - etrans; [exact Hkept | vm_compute; reflexivity].
Defined.

Lemma create_returns_bound_session_witness :
  get "c1" (create Sample.world Sample.chat_c1 10%nat None initial_state).1
    = Some Sample.first_agent ∧
  _getResolvedModelSelection Sample.world "p2" None
    = Ok (_modelSelection Sample.first_agent) ∧
  checkIsUserOwner Sample.first_agent "u1" = true.
Proof.
  destruct (create_returns_bound_session Sample.world Sample.chat_c1 10%nat None
              initial_state
              (create Sample.world Sample.chat_c1 10%nat None initial_state).1
              Sample.first_agent)
    as (_ & _ & _ & _ & Hres & _ & Hget & _ & Howner).
  - vm_compute. reflexivity.
  - split; [exact Hget |]. split; [exact Hres |]. by apply Howner.
Defined.

Lemma create_with_resident_controller_witness :
  10%nat ∈ abortedSignals
             (create Sample.world Sample.chat_c1 10%nat None Sample.state_one).1.
Proof.
  destruct (create_with_resident_controller Sample.world Sample.chat_c1 10%nat None
              Sample.state_one
              (create Sample.world Sample.chat_c1 10%nat None Sample.state_one).1
              Sample.first_agent
              {| objectId := 1%nat; chat := Sample.chat_c1;
                 modelConfig := modelConfig Sample.first_agent;
                 _modelSelection := _modelSelection Sample.first_agent;
                 _abortController := 10%nat |})
    as [_ Haborted].
  - vm_compute. reflexivity.
  - reflexivity.
  - vm_compute. reflexivity.
  - exact Haborted.
Defined.

Lemma failed_create_without_session_witness :
  (create Sample.bare_world Sample.chat_c1 10%nat None initial_state).1 = initial_state.
Proof.
  apply (failed_create_without_session Sample.bare_world Sample.chat_c1 10%nat None
           initial_state _ (Error "No model config found")).
  - vm_compute. reflexivity.
  - vm_compute. reflexivity.
Defined.

Lemma disposeAgent_effect_witness :
  _disposeAgent "c9" Sample.state_one = (Sample.state_one, Ok tt) ∧
  _agents (_disposeAgent "c1" Scenario.state_two).1 !! "c1" = None ∧
  _agents (_disposeAgent "c1" Scenario.state_two).1 !! "c2" = Some Scenario.agent_c2 ∧
  stopped Sample.first_agent (_disposeAgent "c1" Scenario.state_two).1.
Proof.
  destruct (disposeAgent_effect "c9" Sample.state_one) as [Habsent _].
  destruct (disposeAgent_effect "c1" Scenario.state_two) as [_ Hresident].
  destruct (Hresident Sample.first_agent) as (_ & Hgone & Hothers & Hstopped & _).
  - vm_compute. reflexivity.
  - split; [apply Habsent; vm_compute; reflexivity |].
    split; [exact Hgone |]. split; [| exact Hstopped].
    etrans; [apply (Hothers "c2"); discriminate | vm_compute; reflexivity].
Defined.

Lemma stale_dispose_after_recreate_witness :
  get "c1" (run_creates [Sample.first_call; Sample.second_call] initial_state).1
    = Some Scenario.second_agent ∧
  get "c1" (_onDispose Sample.first_agent
              (run_creates [Sample.first_call; Sample.second_call] initial_state).1).1
    = None.
Proof.
  destruct (stale_dispose_after_recreate Sample.world Sample.world Sample.chat_c1
              10%nat 12%nat None None initial_state Sample.state_one
              (run_creates [Sample.first_call; Sample.second_call] initial_state).1
              Sample.first_agent Scenario.second_agent)
    as (_ & Hget & _ & Hgone & _).
  - vm_compute. reflexivity.
  - vm_compute. reflexivity.
  - by split.
Defined.

Lemma create_resumed_replaces_without_stop_witness :
  get "c1" (create_resumed Sample.world Sample.chat_c1 12%nat None Sample.state_one).1
    = Some Scenario.second_agent ∧
  history (create_resumed Sample.world Sample.chat_c1 12%nat None Sample.state_one).1 = [].
Proof.
  destruct (create_resumed_replaces_without_stop Sample.world Sample.chat_c1 12%nat None
              Sample.state_one
              (create_resumed Sample.world Sample.chat_c1 12%nat None Sample.state_one).1
              Sample.first_agent Scenario.second_agent)
    as (Hget & _ & Hhist & _).
  - vm_compute. reflexivity.
  - simpl. lia.
  - vm_compute. reflexivity.
  - by split.
Defined.

(** * Further properties of a session *)

Section SessionRuns.

Context {ModelConfig TokenUsage TokenCost UIMessage : Type}.
Implicit Types W : @World ModelConfig TokenUsage TokenCost UIMessage.
Implicit Types st : @State ModelConfig TokenUsage UIMessage.
Implicit Types agent a : @AgentManager ModelConfig.
Implicit Types e : FinishEvent UIMessage.
Implicit Types locals : StreamLocals.
Implicit Types ch : AgentChat.

(** X9. When the generation resolves, the result of [generate] carries its text,
    response messages and steps and the elapsed time as they are, the usage
    converted, and the cost computed from the converted usage for the
    provider and model of the session; the session is disposed once and is
    no longer found by [get]. *)
Theorem generate_resolved_result W agent (messages : list UIMessage)
    agentGenerate (elapsed : Z) st initial result :
  _buildInitialMessages W messages (provider (_modelSelection agent)) = Ok initial →
  agentGenerate initial = Ok result →
  ∃ out,
    (generate W agent messages agentGenerate elapsed st).2 = Ok out ∧
    run_text out = gen_text result ∧
    run_responseMessages out = gen_responseMessages result ∧
    run_steps out = gen_steps result ∧
    run_durationMs out = elapsed ∧
    run_usage out = convertToTokenUsage W (gen_totalUsage result) ∧
    run_cost out
      = convertToCost W (run_usage out) (provider (_modelSelection agent))
          (modelId (_modelSelection agent)) ∧
    get (chat_id (chat agent)) (generate W agent messages agentGenerate elapsed st).1 = None ∧
    dispose_count agent (generate W agent messages agentGenerate elapsed st).1
      = S (dispose_count agent st).
Proof.
  intros Hbuild Hgen. unfold generate, bind, await, ret. rewrite Hbuild, Hgen. simpl.
  eexists. split; [reflexivity |]. simpl. repeat (split; [done |]).
  split; [unfold get; simpl; apply lookup_delete_eq |].
  unfold dispose_count. simpl. by rewrite filter_cons_True.
Qed.

(** X10. Whatever the outcome, [generate] persists no message, aborts no
    controller, makes no object and leaves the sessions of the other
    conversations in place. *)
Theorem generate_frame W agent (messages : list UIMessage)
    agentGenerate (elapsed : Z) st :
  upserted (generate W agent messages agentGenerate elapsed st).1 = upserted st ∧
  abortedSignals (generate W agent messages agentGenerate elapsed st).1 = abortedSignals st ∧
  nextObject (generate W agent messages agentGenerate elapsed st).1 = nextObject st ∧
  (∀ k, k ≠ chat_id (chat agent) →
     _agents (generate W agent messages agentGenerate elapsed st).1 !! k = _agents st !! k).
Proof.
  unfold generate, bind, await, ret.
  destruct (_buildInitialMessages W messages (provider (_modelSelection agent)))
    as [initial | err]; [| done].
  destruct (agentGenerate initial) as [result | err]; [| done].
  simpl. repeat (split; [done |]). intros k Hk. by rewrite lookup_delete_ne.
Qed.

(** X11. [onFinish] reads the usage first.  When [execute] never assigned the
    result it throws a [TypeError], and when the usage promise rejects it
    rethrows; in both cases nothing is persisted, the disposal callback is
    not invoked and the state is unchanged. *)
Theorem onFinish_without_usage W agent e locals (outcome : result unit) st :
  (result_ locals = None →
     onFinish W agent e locals outcome st
       = (st, Err (TypeError "Cannot read properties of undefined (reading 'totalUsage')"))) ∧
  (∀ result err,
     result_ locals = Some result → totalUsage result = Err err →
     onFinish W agent e locals outcome st = (st, Err err)).
Proof.
  unfold onFinish, bind, await, throw. split.
  - by intros ->.
  - intros result err -> ->. done.
Qed.

(** X12. When [upsertMessage] rejects, [onFinish] rethrows after the call and
    before the disposal: the session stays in the registry and its disposal
    callback is not invoked. *)
Theorem onFinish_upsert_rejected W agent e locals st result usage err :
  result_ locals = Some result →
  totalUsage result = Ok usage →
  (onFinish W agent e locals (Err err) st).2 = Err err ∧
  length (upserted (onFinish W agent e locals (Err err) st).1) = S (length (upserted st)) ∧
  _agents (onFinish W agent e locals (Err err) st).1 = _agents st ∧
  history (onFinish W agent e locals (Err err) st).1 = history st.
Proof.
  intros Hresult Husage. unfold onFinish, bind, await. rewrite Hresult, Husage. done.
Qed.

(** X13. When the usage is at hand and the store accepts the message, [onFinish]
    persists the usage converted and the provider and model of the session,
    then disposes the session once: [get] no longer finds it, no controller
    is aborted, and the other conversations keep their sessions. *)
Theorem onFinish_completes W agent e locals st result usage :
  result_ locals = Some result →
  totalUsage result = Ok usage →
  (onFinish W agent e locals (Ok tt) st).2 = Ok tt ∧
  (∃ call,
     upserted (onFinish W agent e locals (Ok tt) st).1 = call :: upserted st ∧
     up_tokenUsage call = convertToTokenUsage W usage ∧
     up_llmProvider call = provider (_modelSelection agent) ∧
     up_llmModelId call = getModelId agent) ∧
  get (chat_id (chat agent)) (onFinish W agent e locals (Ok tt) st).1 = None ∧
  (∀ k, k ≠ chat_id (chat agent) →
     _agents (onFinish W agent e locals (Ok tt) st).1 !! k = _agents st !! k) ∧
  dispose_count agent (onFinish W agent e locals (Ok tt) st).1 = S (dispose_count agent st) ∧
  abortedSignals (onFinish W agent e locals (Ok tt) st).1 = abortedSignals st.
Proof.
  intros Hresult Husage. unfold onFinish, bind, await. rewrite Hresult, Husage. simpl.
  split; [done |]. split; [eexists; by repeat split |].
  split; [unfold get; simpl; apply lookup_delete_eq |].
  split; [intros k Hk; by rewrite lookup_delete_ne |].
  split; [| done]. unfold dispose_count. simpl. by rewrite filter_cons_True.
Qed.

(** X14. [execute] writes the data of the conversation first when asked to,
    also when building the messages or starting the agent fails, and never
    otherwise; the result of the agent is assigned, and its stream merged,
    only when the agent started. *)
Theorem execute_announces W agent (uiMessages : list UIMessage) (sendNewChatData : bool)
    (agentStream : list ModelMessage → result StreamTextResult) locals :
  (sendNewChatData = true →
     head (execute W agent uiMessages sendNewChatData agentStream locals).1.2
       = Some (DataNewChat (chat_id (chat agent)) (chat_title (chat agent))
                 (chat_createdAt (chat agent)) (chat_updatedAt (chat agent)))) ∧
  (sendNewChatData = false →
     ∀ id title created updated,
       DataNewChat id title created updated
         ∉ (execute W agent uiMessages sendNewChatData agentStream locals).1.2) ∧
  (∀ err,
     (execute W agent uiMessages sendNewChatData agentStream locals).2 = Err err →
     (execute W agent uiMessages sendNewChatData agentStream locals).1.1 = locals ∧
     ∀ r, Merged r ∉ (execute W agent uiMessages sendNewChatData agentStream locals).1.2) ∧
  ((execute W agent uiMessages sendNewChatData agentStream locals).2 = Ok tt →
     ∃ r,
       result_ (execute W agent uiMessages sendNewChatData agentStream locals).1.1 = Some r ∧
       error (execute W agent uiMessages sendNewChatData agentStream locals).1.1
         = error locals ∧
       last (execute W agent uiMessages sendNewChatData agentStream locals).1.2
         = Some (Merged r)).
Proof.
  unfold execute.
  destruct (_buildInitialMessages W uiMessages (provider (_modelSelection agent)))
    as [initial | err0]; [destruct (agentStream initial) as [r | err0] |]; simpl.
  - split; [by intros -> |]. split.
    { intros ->. simpl. intros id title created updated Hin.
      apply elem_of_cons in Hin as [Hin | Hin]; [discriminate | by apply elem_of_nil in Hin]. }
    split; [discriminate |]. intros _. exists r. split; [done |]. split; [done |].
    apply last_snoc.
  - split; [by intros -> |]. split.
    { intros ->. intros id title created updated Hin. by apply elem_of_nil in Hin. }
    split; [| discriminate]. intros err _. split; [done |].
    intros r Hin. destruct sendNewChatData.
    + apply elem_of_cons in Hin as [Hin | Hin]; [discriminate | by apply elem_of_nil in Hin].
    + by apply elem_of_nil in Hin.
  - split; [by intros -> |]. split.
    { intros ->. intros id title created updated Hin. by apply elem_of_nil in Hin. }
    split; [| discriminate]. intros err _. split; [done |].
    intros r Hin. destruct sendNewChatData.
    + apply elem_of_cons in Hin as [Hin | Hin]; [discriminate | by apply elem_of_nil in Hin].
    + by apply elem_of_nil in Hin.
Qed.

(** X15. [onError] captures the error, returns [String(err)] and leaves the
    result of the agent as it is.  When the result is assigned and its usage
    resolves, a following [onFinish] persists the message with that error
    attached and, the store accepting it, disposes the session once.  When
    the result was never assigned, the following [onFinish] persists
    nothing. *)
Theorem onError_then_onFinish W agent e locals st (err : exn) :
  (onError err locals).2 = String_ err ∧
  error (onError err locals).1 = Some err ∧
  result_ (onError err locals).1 = result_ locals ∧
  (∀ result usage,
     result_ locals = Some result →
     totalUsage result = Ok usage →
     (∃ call,
        upserted (onFinish W agent e (onError err locals).1 (Ok tt) st).1
          = call :: upserted st ∧
        up_error call = Some err) ∧
     (onFinish W agent e (onError err locals).1 (Ok tt) st).2 = Ok tt ∧
     dispose_count agent (onFinish W agent e (onError err locals).1 (Ok tt) st).1
       = S (dispose_count agent st)) ∧
  (result_ locals = None →
     upserted (onFinish W agent e (onError err locals).1 (Ok tt) st).1 = upserted st ∧
     is_ok (onFinish W agent e (onError err locals).1 (Ok tt) st).2 = false).
Proof.
  split; [done |]. split; [done |]. split; [done |]. split.
  - intros result usage Hresult Husage. unfold onError, onFinish, bind, await. simpl.
    rewrite Hresult, Husage. simpl.
    split; [eexists; by split |]. split; [done |].
    unfold dispose_count. simpl. by rewrite filter_cons_True.
  - intros Hresult. unfold onError, onFinish, bind, await, throw. simpl.
    by rewrite Hresult.
Qed.

(** X16. A session whose [generate] resolved has left the registry, so the next
    [create] for its conversation stops nothing. *)
Theorem create_after_generate_stops_nothing W W' ch (c1 c2 : nat) sel sel'
    (messages : list UIMessage) agentGenerate (elapsed : Z) st st1 a initial result :
  create W ch c1 sel st = (st1, Ok a) →
  _buildInitialMessages W messages (provider (_modelSelection a)) = Ok initial →
  agentGenerate initial = Ok result →
  get (chat_id ch) (generate W a messages agentGenerate elapsed st1).1 = None ∧
  abortedSignals
    (create W' ch c2 sel' (generate W a messages agentGenerate elapsed st1).1).1
    = abortedSignals st1 ∧
  history (create W' ch c2 sel' (generate W a messages agentGenerate elapsed st1).1).1
    = Disposed (objectId a) :: history st1.
Proof.
  intros Hcreate Hbuild Hgen.
  assert (Hchat : chat a = ch).
  { unfold create, create_resumed, bind, await, ret in Hcreate.
    destruct (_disposeAgent (chat_id ch) st) as [st0 [[] | err]]; [| discriminate].
    destruct (_getResolvedModelSelection W (chat_projectId ch) sel) as [resolved | ?];
      [| discriminate].
    destruct (_getModelConfig W (chat_projectId ch) resolved); [| discriminate].
    simpl in Hcreate. by injection Hcreate as _ <-. }
  assert (Hstate : (generate W a messages agentGenerate elapsed st1).1 = (_onDispose a st1).1).
  { unfold generate, bind, await, ret. by rewrite Hbuild, Hgen. }
  rewrite Hstate.
  assert (Hgone : _agents (_onDispose a st1).1 !! chat_id ch = None).
  { unfold _onDispose. simpl. rewrite Hchat. apply lookup_delete_eq. }
  split; [exact Hgone |].
  assert (Hdisp : (_disposeAgent (chat_id ch) (_onDispose a st1).1).1 = (_onDispose a st1).1).
  { unfold _disposeAgent. by rewrite Hgone. }
  unfold create, create_resumed, bind, await, ret.
  destruct (_disposeAgent (chat_id ch) (_onDispose a st1).1) as [st2 [[] | err]] eqn:Hd;
    simpl in Hdisp; subst st2.
  - destruct (_getResolvedModelSelection W' (chat_projectId ch) sel') as [resolved | ?];
      [| done].
    by destruct (_getModelConfig W' (chat_projectId ch) resolved).
  - unfold _disposeAgent in Hd. rewrite Hgone in Hd. discriminate.
Qed.

(** C6 (the failing case). In an aborted run whose usage is not available,
    because [execute] never assigned the result or because the usage promise
    of the result rejects, [onFinish] throws where it reads the usage,
    before the call of [upsertMessage]: no message is persisted, so no stop
    reason 'interrupted' is recorded, the callback settles with the error,
    and the session is not disposed.  This holds whatever finish reason the
    provider reported and whatever the store would have answered. *)
Theorem aborted_run_without_usage_persists_nothing W agent
    (reason : option FinishReason) (message : UIMessage) (captured : option exn)
    (outcome : result unit) (err : exn) st :
  onFinish W agent {| isAborted := true; finishReason := reason; responseMessage := message |}
    {| error := captured; result_ := None |} outcome st
  = (st, Err (TypeError "Cannot read properties of undefined (reading 'totalUsage')")) ∧
  onFinish W agent {| isAborted := true; finishReason := reason; responseMessage := message |}
    {| error := captured; result_ := Some {| totalUsage := Err err |} |} outcome st
  = (st, Err err) ∧
  upserted
    (onFinish W agent
       {| isAborted := true; finishReason := reason; responseMessage := message |}
       {| error := captured; result_ := Some {| totalUsage := Err err |} |} outcome st).1
  = upserted st ∧
  dispose_count agent
    (onFinish W agent
       {| isAborted := true; finishReason := reason; responseMessage := message |}
       {| error := captured; result_ := Some {| totalUsage := Err err |} |} outcome st).1
  = dispose_count agent st.
Proof. unfold onFinish, bind, await, throw. simpl. by repeat split. Qed.

End SessionRuns.

(** An aborted run of [Sample.first_agent] whose usage promise rejected, as
    when the run is aborted during its first step: nothing is persisted and
    the session stays in the registry. *)
Lemma aborted_first_step_leaves_no_message :
  upserted (onFinish Sample.world Sample.first_agent (finishEvent Sample.aborted_run)
              {| error := None;
                 result_ := Some {| totalUsage := Err (Rejected "No output generated") |} |}
              (Ok tt) Sample.state_one).1 = [] ∧
  get "c1" (onFinish Sample.world Sample.first_agent (finishEvent Sample.aborted_run)
              {| error := None;
                 result_ := Some {| totalUsage := Err (Rejected "No output generated") |} |}
              (Ok tt) Sample.state_one).1 = Some Sample.first_agent.
Proof. split; vm_compute; reflexivity. Qed.

Lemma generate_resolved_result_witness :
  ∃ out,
    (generate Sample.world Sample.first_agent ["hi"] (λ _, Ok Scenario.full_result) 120
       Sample.state_one).2 = Ok out ∧
    run_text out = "done" ∧
    run_usage out = 8%Z ∧
    run_cost out = 16%Z ∧
    get "c1" (generate Sample.world Sample.first_agent ["hi"]
                (λ _, Ok Scenario.full_result) 120 Sample.state_one).1 = None.
Proof.
  destruct (generate_resolved_result Sample.world Sample.first_agent ["hi"]
              (λ _, Ok Scenario.full_result) 120 Sample.state_one
              (_withAnthropicCache Sample.world [Sample.msg_system; Sample.msg_user] "openai")
              Scenario.full_result)
    as (out & Hout & Htext & _ & _ & _ & Husage & Hcost & Hget & _).
  - reflexivity.
  - reflexivity.
  - exists out. split; [exact Hout |]. split; [exact Htext |].
    split; [exact Husage |]. split; [| exact Hget].
    rewrite Hcost, Husage. reflexivity.
Defined.

Lemma generate_frame_witness :
  _agents (generate Sample.world Sample.first_agent ["hi"] (λ _, Ok Scenario.full_result)
             120 Scenario.state_two).1 !! "c2" = Some Scenario.agent_c2.
Proof.
  destruct (generate_frame Sample.world Sample.first_agent ["hi"]
              (λ _, Ok Scenario.full_result) 120 Scenario.state_two) as (_ & _ & _ & Hkept).
  etrans; [apply (Hkept "c2"); discriminate | vm_compute; reflexivity].
Defined.

Lemma onFinish_without_usage_witness :
  onFinish Sample.world Sample.first_agent Scenario.normal_event
    {| error := None; result_ := None |} (Ok tt) Sample.state_one
  = (Sample.state_one,
     Err (TypeError "Cannot read properties of undefined (reading 'totalUsage')")) ∧
  onFinish Sample.world Sample.first_agent Scenario.normal_event
    {| error := None; result_ := Some {| totalUsage := Err (Rejected "no output") |} |}
    (Ok tt) Sample.state_one
  = (Sample.state_one, Err (Rejected "no output")).
Proof.
  split.
  - destruct (onFinish_without_usage Sample.world Sample.first_agent Scenario.normal_event
                {| error := None; result_ := None |} (Ok tt) Sample.state_one) as [H _].
    apply H. reflexivity.
  - destruct (onFinish_without_usage Sample.world Sample.first_agent Scenario.normal_event
                {| error := None;
                   result_ := Some {| totalUsage := Err (Rejected "no output") |} |}
                (Ok tt) Sample.state_one) as [_ H].
    apply (H {| totalUsage := Err (Rejected "no output") |}); reflexivity.
Defined.

Lemma onFinish_upsert_rejected_witness :
  (onFinish Sample.world Sample.first_agent Scenario.normal_event Sample.finish_locals
     (Err (Rejected "database is locked")) Sample.state_one).2
  = Err (Rejected "database is locked") ∧
  _agents (onFinish Sample.world Sample.first_agent Scenario.normal_event
             Sample.finish_locals (Err (Rejected "database is locked"))
             Sample.state_one).1
  = _agents Sample.state_one.
Proof.
  destruct (onFinish_upsert_rejected Sample.world Sample.first_agent Scenario.normal_event
              Sample.finish_locals Sample.state_one
              {| totalUsage := Ok Scenario.usage8 |} Scenario.usage8
              (Rejected "database is locked")) as (Hsettled & _ & Hagents & _).
  - reflexivity.
  - reflexivity.
  - by split.
Defined.

Lemma onFinish_completes_witness :
  get "c1" (onFinish Sample.world Sample.first_agent Scenario.normal_event
              Sample.finish_locals (Ok tt) Scenario.state_two).1 = None ∧
  _agents (onFinish Sample.world Sample.first_agent Scenario.normal_event
             Sample.finish_locals (Ok tt) Scenario.state_two).1 !! "c2"
  = Some Scenario.agent_c2.
Proof.
  destruct (onFinish_completes Sample.world Sample.first_agent Scenario.normal_event
              Sample.finish_locals Scenario.state_two
              {| totalUsage := Ok Scenario.usage8 |} Scenario.usage8)
    as (_ & _ & Hgone & Hkept & _).
  - reflexivity.
  - reflexivity.
  - split; [exact Hgone |].
    etrans; [apply (Hkept "c2"); discriminate | vm_compute; reflexivity].
Defined.

Lemma execute_announces_witness :
  head (execute Sample.world Sample.first_agent ["hi"] true
          (λ _, Err (Rejected "provider unavailable"))
          {| error := None; result_ := None |}).1.2
  = Some (DataNewChat "c1" "Revenue by month" 1700000000 1700000050) ∧
  result_ (execute Sample.world Sample.first_agent ["hi"] true
             (λ _, Err (Rejected "provider unavailable"))
             {| error := None; result_ := None |}).1.1 = None.
Proof.
  destruct (execute_announces Sample.world Sample.first_agent ["hi"] true
              (λ _, Err (Rejected "provider unavailable"))
              {| error := None; result_ := None |}) as (Hhead & _ & Hfail & _).
  split; [apply Hhead; reflexivity |].
  destruct (Hfail (Rejected "provider unavailable")) as [Hlocals _]; [reflexivity |].
  by rewrite Hlocals.
Defined.

Lemma onError_then_onFinish_witness :
  (onError (Error "") Sample.finish_locals).2 = "Error" ∧
  (∃ call,
     upserted (onFinish Sample.world Sample.first_agent Scenario.normal_event
                 (onError (Error "tool failed") Sample.finish_locals).1 (Ok tt)
                 Sample.state_one).1 = [call] ∧
     up_error call = Some (Error "tool failed")) ∧
  upserted (onFinish Sample.world Sample.first_agent Scenario.normal_event
              (onError (Error "tool failed") {| error := None; result_ := None |}).1
              (Ok tt) Sample.state_one).1 = [].
Proof.
  split; [| split].
  - destruct (onError_then_onFinish Sample.world Sample.first_agent Scenario.normal_event
                Sample.finish_locals Sample.state_one (Error "")) as (Htext & _).
    exact Htext.
  - destruct (onError_then_onFinish Sample.world Sample.first_agent Scenario.normal_event
                Sample.finish_locals Sample.state_one (Error "tool failed"))
      as (_ & _ & _ & Hpersist & _).
    destruct (Hpersist {| totalUsage := Ok Scenario.usage8 |} Scenario.usage8)
      as ((call & Hup & Herr) & _); [reflexivity | reflexivity |].
    exists call. by split.
  - destruct (onError_then_onFinish Sample.world Sample.first_agent Scenario.normal_event
                {| error := None; result_ := None |} Sample.state_one (Error "tool failed"))
      as (_ & _ & _ & _ & Hnone).
    destruct (Hnone eq_refl) as [Hup _]. exact Hup.
Defined.

Lemma create_after_generate_stops_nothing_witness :
  abortedSignals
    (create Sample.world Sample.chat_c1 12%nat None
       (generate Sample.world Sample.first_agent ["hi"] (λ _, Ok Scenario.full_result) 120
          Sample.state_one).1).1 = ∅.
Proof.
  destruct (create_after_generate_stops_nothing Sample.world Sample.world Sample.chat_c1
              10%nat 12%nat None None ["hi"] (λ _, Ok Scenario.full_result) 120
              initial_state Sample.state_one Sample.first_agent
              (_withAnthropicCache Sample.world [Sample.msg_system; Sample.msg_user] "openai")
              Scenario.full_result) as (_ & Hsignals & _).
  - vm_compute. reflexivity.
  - reflexivity.
  - reflexivity.
  - exact Hsignals.
Defined.

(** * Further properties of the cache breakpoints *)

Section Annotation.

Context {ModelConfig TokenUsage TokenCost UIMessage : Type}.
Implicit Types W : @World ModelConfig TokenUsage TokenCost UIMessage.
Implicit Types msg out : ModelMessage.
Implicit Types messages : list ModelMessage.
Implicit Types h : heap.

Lemma cacheControl_optionOf msg :
  cacheControl msg = optionOf msg "anthropic" "cacheControl".
Proof. unfold cacheControl, optionOf. by destruct (providerOptions msg). Qed.

Lemma withCache_optionOf msg cache (p k : string) :
  (p, k) ≠ ("anthropic", "cacheControl") →
  optionOf (withCache msg cache) p k = optionOf msg p k.
Proof.
  intros Hpk. unfold optionOf, withCache. simpl.
  destruct (decide (p = "anthropic")) as [-> | Hp].
  - rewrite lookup_insert_eq. simpl.
    assert (Hk : k ≠ "cacheControl") by congruence.
    rewrite lookup_insert_ne by done.
    by destruct (default ∅ (providerOptions msg) !! "anthropic").
  - by rewrite lookup_insert_ne.
Qed.

(** What the callback does to a message, by cases. *)
Lemma cacheStep_cases W (lastIdx idx : nat) msg :
  (cacheStep W lastIdx idx msg = withCache msg (CACHE_1H W) ∧ idx = 0%nat ∧ is_system msg = true)
  ∨ (cacheStep W lastIdx idx msg = withCache msg (CACHE_5M W) ∧ idx = lastIdx ∧ idx ≠ 0%nat)
  ∨ (cacheStep W lastIdx idx msg = msg ∧
     (idx ≠ 0%nat ∨ is_system msg = false) ∧ (idx ≠ lastIdx ∨ idx = 0%nat)).
Proof.
  unfold cacheStep.
  destruct (Nat.eqb_spec idx 0) as [Hz | Hz]; simpl.
  - destruct (is_system msg); [by left |].
    right. right. rewrite andb_false_r. split; [done |]. split; [by right | by right].
  - destruct (Nat.eqb_spec idx lastIdx) as [Hl | Hl]; simpl.
    + right. left. by split.
    + right. right. split; [done |]. split; [by left | by left].
Qed.

(** X17. The annotation changes nothing but the Anthropic cache breakpoint: every
    message keeps its role, its content, the options of the other providers
    and the other Anthropic options, and the sequence keeps its length. *)
Theorem annotation_keeps_the_rest W messages (provider : LlmProvider) (i : nat) msg out :
  messages !! i = Some msg →
  _withAnthropicCache W messages provider !! i = Some out →
  length (_withAnthropicCache W messages provider) = length messages ∧
  role out = role msg ∧
  content out = content msg ∧
  (∀ p k, (p, k) ≠ ("anthropic", "cacheControl") → optionOf out p k = optionOf msg p k).
Proof.
  intros Hmsg Hout. split; [apply withAnthropicCache_length |].
  destruct (decide (provider ≠ "anthropic" ∨ messages = [])) as [Hnoop | Hrun].
  - rewrite (withAnthropicCache_noop W messages provider Hnoop), Hmsg in Hout.
    by injection Hout as <-.
  - assert (Hp : provider = "anthropic").
    { destruct (decide (provider = "anthropic")); [done | by destruct Hrun; left]. }
    assert (Hne : messages ≠ []) by (intros ->; apply Hrun; by right).
    subst provider. rewrite (withAnthropicCache_lookup W _ i Hne), Hmsg in Hout.
    simpl in Hout. injection Hout as <-.
    destruct (cacheStep_cases W (length messages - 1) i msg)
      as [(-> & _) | [(-> & _) | (-> & _)]];
      [| | done]; (split; [done |]; split; [done |]; intros p k; apply withCache_optionOf).
Qed.

(** X18. For a sequence that carries no breakpoint, the result has the one-hour
    breakpoint on a leading system message, the five-minute breakpoint on
    the last message when it is not the first, and no breakpoint anywhere
    else. *)
Theorem only_first_and_last_marked W messages (i : nat) out :
  Forall (λ msg, cacheControl msg = None) messages →
  _withAnthropicCache W messages "anthropic" !! i = Some out →
  cacheControl out
  = if (i =? 0)%nat && is_system out then Some (CACHE_1H W)
    else if (i =? length messages - 1)%nat && negb (i =? 0)%nat then Some (CACHE_5M W)
    else None.
Proof.
  intros Hplain Hout.
  assert (Hne : messages ≠ []).
  { intros ->. unfold _withAnthropicCache in Hout. simpl in Hout. discriminate. }
  rewrite (withAnthropicCache_lookup W _ i Hne) in Hout.
  destruct (messages !! i) as [msg |] eqn:Hmsg; [| discriminate].
  simpl in Hout. injection Hout as <-.
  assert (Hnone : cacheControl msg = None).
  { rewrite Forall_forall in Hplain. apply Hplain. by eapply list_elem_of_lookup_2. }
  rewrite cacheStep_is_system. unfold cacheStep.
  destruct ((i =? 0)%nat && is_system msg); [apply withCache_cacheControl |].
  destruct ((i =? length messages - 1)%nat && negb (i =? 0)%nat);
    [apply withCache_cacheControl | exact Hnone].
Qed.

(** A list whose elements with a property sit at its ends only has at most
    two of them. *)
Lemma filter_last_only {A} (P : A → Prop) `{∀ x, Decision (P x)} (l : list A) :
  (∀ (j : nat) x, l !! j = Some x → P x → j = (length l - 1)%nat) →
  length (filter P l) ≤ 1.
Proof.
  induction l as [| y rest IH]; intros Hends; [simpl; lia |].
  destruct rest as [| z rest'].
  - rewrite filter_cons. destruct (decide (P y)); simpl; lia.
  - rewrite filter_cons_False.
    + apply IH. intros j x Hj Hx. specialize (Hends (S j) x Hj Hx). simpl in *. lia.
    + intros Hy. specialize (Hends 0%nat y eq_refl Hy). simpl in Hends. lia.
Qed.

Lemma filter_ends_only {A} (P : A → Prop) `{∀ x, Decision (P x)} (l : list A) :
  (∀ (j : nat) x, l !! j = Some x → P x → j = 0%nat ∨ j = (length l - 1)%nat) →
  length (filter P l) ≤ 2.
Proof.
  destruct l as [| y rest]; intros Hends; [simpl; lia |].
  assert (Hrest : length (filter P rest) ≤ 1).
  { apply filter_last_only. intros j x Hj Hx.
    destruct (Hends (S j) x Hj Hx) as [Hz | Hl]; [lia | simpl in Hl; lia]. }
  rewrite filter_cons. destruct (decide (P y)); simpl; lia.
Qed.

(** X19. For a sequence that carries no breakpoint, at most two messages of the
    result carry one. *)
Theorem at_most_two_breakpoints W messages :
  Forall (λ msg, cacheControl msg = None) messages →
  length (filter (λ msg, is_marked msg = true)
            (_withAnthropicCache W messages "anthropic")) ≤ 2.
Proof.
  intros Hplain. apply filter_ends_only. intros j out Hout Hmarked.
  rewrite withAnthropicCache_length.
  assert (Hne : messages ≠ []).
  { intros ->. unfold _withAnthropicCache in Hout. simpl in Hout. discriminate. }
  rewrite (withAnthropicCache_lookup W _ j Hne) in Hout.
  destruct (messages !! j) as [msg |] eqn:Hmsg; [| discriminate].
  simpl in Hout. injection Hout as <-.
  destruct (cacheStep_cases W (length messages - 1) j msg)
    as [(_ & Hz & _) | [(_ & Hl & _) | (Hsame & _)]]; [by left | by right |].
  rewrite Hsame in Hmarked. unfold is_marked in Hmarked.
  rewrite Forall_forall in Hplain.
  rewrite (Hplain msg) in Hmarked; [discriminate | by eapply list_elem_of_lookup_2].
Qed.

End Annotation.

Section InitialMessages.

Context {ModelConfig TokenUsage TokenCost UIMessage : Type}.
Implicit Types W : @World ModelConfig TokenUsage TokenCost UIMessage.
Implicit Types agent : @AgentManager ModelConfig.
Implicit Types msg out : ModelMessage.
Implicit Types messages initial responses : list ModelMessage.
Implicit Types h : heap.

(** The message [_buildInitialMessages] puts in front. *)
Lemma buildInitialMessages_unfold W (ui : list UIMessage) (p : LlmProvider) modelMessages :
  convertToModelMessages W ui = Ok modelMessages →
  _buildInitialMessages W ui p
  = Ok (_withAnthropicCache W
          ({| role := system; content := JStr (getInstructions W); providerOptions := None |}
             :: modelMessages) p).
Proof. intros Hconv. unfold _buildInitialMessages. by rewrite Hconv. Qed.

(** X20. [_buildInitialMessages] fails as the conversion fails.  Otherwise it
    returns the converted messages behind one system message holding the
    instructions: roles and contents are those of the converted messages;
    for Anthropic the system message carries the one-hour breakpoint and the
    last converted message the five-minute breakpoint, the messages between
    them being the converted ones; for another provider the result is the
    plain sequence. *)
Theorem buildInitialMessages_shape W (ui : list UIMessage) (p : LlmProvider) :
  (∀ err, convertToModelMessages W ui = Err err → _buildInitialMessages W ui p = Err err) ∧
  (∀ modelMessages,
     convertToModelMessages W ui = Ok modelMessages →
     ∃ initial,
       _buildInitialMessages W ui p = Ok initial ∧
       length initial = S (length modelMessages) ∧
       (∃ first,
          initial !! 0%nat = Some first ∧ role first = system ∧
          content first = JStr (getInstructions W) ∧
          cacheControl first
          = if String.eqb p "anthropic" then Some (CACHE_1H W) else None) ∧
       (∀ (i : nat) msg,
          modelMessages !! i = Some msg →
          ∃ out,
            initial !! S i = Some out ∧ role out = role msg ∧ content out = content msg ∧
            (S i < length modelMessages → out = msg) ∧
            (p = "anthropic" → S i = length modelMessages →
               cacheControl out = Some (CACHE_5M W))) ∧
       (p ≠ "anthropic" →
          initial = {| role := system; content := JStr (getInstructions W);
                       providerOptions := None |} :: modelMessages)).
Proof.
  split.
  { intros err Hconv. unfold _buildInitialMessages. by rewrite Hconv. }
  intros modelMessages Hconv.
  set (sys := {| role := system; content := JStr (getInstructions W);
                 providerOptions := None |}).
  exists (_withAnthropicCache W (sys :: modelMessages) p).
  split; [by apply buildInitialMessages_unfold |].
  split; [by rewrite withAnthropicCache_length |].
  destruct (String.eqb_spec p "anthropic") as [-> | Hp].
  - assert (Hne : sys :: modelMessages ≠ []) by done.
    split; [| split; [| done]].
    + exists (withCache sys (CACHE_1H W)).
      rewrite (withAnthropicCache_lookup W _ 0 Hne). simpl.
      split; [done |]. split; [done |]. split; [done | apply withCache_cacheControl].
    + intros i msg Hmsg.
      exists (cacheStep W (length modelMessages) (S i) msg).
      rewrite (withAnthropicCache_lookup W _ (S i) Hne). simpl.
      rewrite Nat.sub_0_r, Hmsg. simpl.
      split; [done |].
      destruct (cacheStep_cases W (length modelMessages) (S i) msg)
        as [(_ & Hz & _) | [(-> & Hl & _) | (-> & _ & Hl)]]; [lia | |].
      * split; [done |]. split; [done |]. split; [lia |].
        intros _ _. apply withCache_cacheControl.
      * split; [done |]. split; [done |]. split; [done |].
        intros _ Hlast. destruct Hl as [Hl | Hl]; [contradiction | lia].
  - assert (Hnoop : _withAnthropicCache W (sys :: modelMessages) p = sys :: modelMessages).
    { apply withAnthropicCache_noop. by left. }
    rewrite Hnoop. split; [| split; [| done]].
    + exists sys. by repeat split.
    + intros i msg Hmsg. exists msg. simpl. split; [done |]. split; [done |].
      split; [done |]. split; [done |]. intros ->. contradiction.
Qed.

(** X21. [prepareStep] leaves the first step alone and annotates again on every
    later step.  For Anthropic, when response messages have followed the
    initial messages, the result carries three breakpoints: the one-hour
    breakpoint on the system message, the five-minute breakpoint the last
    initial message already had, which stays, and the five-minute breakpoint
    on the new last message. *)
Theorem prepareStep_after_responses W agent (ui : list UIMessage) modelMessages initial
    responses (n : nat) :
  provider (_modelSelection agent) = "anthropic" →
  convertToModelMessages W ui = Ok modelMessages →
  modelMessages ≠ [] →
  _buildInitialMessages W ui "anthropic" = Ok initial →
  responses ≠ [] →
  prepareStep W agent (initial ++ responses) 0 = None ∧
  ∃ annotated,
    prepareStep W agent (initial ++ responses) (S n) = Some annotated ∧
    length annotated = (length initial + length responses)%nat ∧
    (∃ first, annotated !! 0%nat = Some first ∧ cacheControl first = Some (CACHE_1H W)) ∧
    (∃ leaf,
       initial !! (length initial - 1)%nat = Some leaf ∧
       annotated !! (length initial - 1)%nat = Some leaf ∧
       cacheControl leaf = Some (CACHE_5M W)) ∧
    (∃ last,
       annotated !! (length initial + length responses - 1)%nat = Some last ∧
       cacheControl last = Some (CACHE_5M W)).
Proof.
  intros Hp Hconv Hmodel Hbuild Hresp.
  split; [done |].
  unfold prepareStep. simpl. rewrite Hp.
  rewrite (buildInitialMessages_unfold W ui "anthropic" modelMessages Hconv) in Hbuild.
  injection Hbuild as Hinitial.
  set (sys := {| role := system; content := JStr (getInstructions W);
                 providerOptions := None |}) in *.
  assert (Hsysne : sys :: modelMessages ≠ []) by done.
  assert (Hlen : length initial = S (length modelMessages)).
  { by rewrite <- Hinitial, withAnthropicCache_length. }
  assert (Hmlen : 0 < length modelMessages).
  { destruct modelMessages; [done | simpl; lia]. }
  assert (Hrlen : 0 < length responses).
  { destruct responses; [done | simpl; lia]. }
  assert (Hne : initial ++ responses ≠ []).
  { intros Hnil. apply (f_equal length) in Hnil. rewrite length_app in Hnil. simpl in Hnil. lia. }
  eexists. split; [reflexivity |].
  split; [by rewrite withAnthropicCache_length, length_app |].
  (* the first message of [initial] already is the annotated system message *)
  assert (Hfirst : initial !! 0%nat = Some (withCache sys (CACHE_1H W))).
  { rewrite <- Hinitial. by rewrite (withAnthropicCache_lookup W _ 0 Hsysne). }
  (* its last message is the annotated last converted message *)
  destruct (lookup_lt_is_Some_2 modelMessages (length modelMessages - 1)) as [m Hm]; [lia |].
  assert (Hleaf : initial !! (length initial - 1)%nat = Some (withCache m (CACHE_5M W))).
  { assert (Hidx : (length initial - 1 = S (length modelMessages - 1))%nat) by lia.
    rewrite Hidx, <- Hinitial, (withAnthropicCache_lookup W _ _ Hsysne).
    remember (length (sys :: modelMessages) - 1)%nat as lastIdx eqn:Hlast.
    cbn [length] in Hlast.
    change ((sys :: modelMessages) !! S (length modelMessages - 1))
      with (modelMessages !! (length modelMessages - 1)%nat).
    rewrite Hm. simpl. f_equal.
    destruct (cacheStep_cases W lastIdx (S (length modelMessages - 1)) m)
      as [(_ & Hz & _) | [(-> & _) | (_ & _ & Hl)]]; [lia | done | lia]. }
  split; [| split].
  - exists (withCache (withCache sys (CACHE_1H W)) (CACHE_1H W)).
    rewrite (withAnthropicCache_lookup W _ 0 Hne).
    rewrite lookup_app_l, Hfirst by lia. simpl.
    split; [done | apply withCache_cacheControl].
  - exists (withCache m (CACHE_5M W)). split; [exact Hleaf |].
    split; [| apply withCache_cacheControl].
    rewrite (withAnthropicCache_lookup W _ _ Hne).
    rewrite lookup_app_l, Hleaf by lia. simpl. f_equal.
    destruct (cacheStep_cases W (length (initial ++ responses) - 1) (length initial - 1)
                (withCache m (CACHE_5M W)))
      as [(_ & Hz & _) | [(_ & Hl & _) | (-> & _)]]; [lia | | done].
    rewrite length_app in Hl. lia.
  - destruct (lookup_lt_is_Some_2 (initial ++ responses)
                (length initial + length responses - 1)) as [x Hx];
      [rewrite length_app; lia |].
    exists (withCache x (CACHE_5M W)). split; [| apply withCache_cacheControl].
    rewrite (withAnthropicCache_lookup W _ _ Hne), Hx. simpl. f_equal.
    rewrite length_app. unfold cacheStep.
    destruct (Nat.eqb_spec (length initial + length responses - 1) 0); [lia |].
    simpl. by rewrite Nat.eqb_refl.
Qed.

End InitialMessages.

Section Aliasing.

Context {ModelConfig TokenUsage TokenCost UIMessage : Type}.
Implicit Types W : @World ModelConfig TokenUsage TokenCost UIMessage.
Implicit Types h : heap.






End Aliasing.

(** * Properties of the database selection *)

Section Database.

Import DbConfig.

(** X23. Every setting follows the one flag: the handle, the adapter of the
    authentication, and the migration tool are all for Postgres with
    [DB_URL], or all for SQLite with [DB_FILE_NAME]. *)
Theorem database_settings_agree (env : gmap string string) :
  (isPostgres env = true ∧
   db env = drizzlePostgres (env !! "DB_URL") postgresSchema ∧
   adapter_db (auth env) = db env ∧
   adapter_provider (auth env) = "pg" ∧
   adapter_schema (auth env) = postgresSchema ∧
   drizzleConfig env
   = {| kit_out := "./migrations-postgres"; kit_schema := "./src/db/pg-schema.ts";
        kit_dialect := "postgresql"; kit_url := env !! "DB_URL" |})
  ∨ (isPostgres env = false ∧
     db env = drizzleSqlite (env !! "DB_FILE_NAME") sqliteSchema ∧
     adapter_db (auth env) = db env ∧
     adapter_provider (auth env) = "sqlite" ∧
     adapter_schema (auth env) = sqliteSchema ∧
     drizzleConfig env
     = {| kit_out := "./migrations-sqlite"; kit_schema := "./src/db/sqlite-schema.ts";
          kit_dialect := "sqlite"; kit_url := env !! "DB_FILE_NAME" |}).
Proof.
  unfold db, auth, drizzleConfig, DbConfig.provider, schema, dialect, migrationsFolder,
    schemaPath, dbUrl, db.
  destruct (isPostgres env); [left | right]; by repeat split.
Qed.

(** X24. Postgres is selected by the exact value 'postgres' only: with any other
    value of [DB_SELECTED], or none, the handle is the SQLite one for
    [DB_FILE_NAME], whatever [DB_URL] holds, and the migration tool reads
    [DB_FILE_NAME] as well. *)
Theorem sqlite_unless_exactly_postgres (env : gmap string string) :
  env !! "DB_SELECTED" ≠ Some "postgres" →
  isPostgres env = false ∧
  db env = drizzleSqlite (env !! "DB_FILE_NAME") sqliteSchema ∧
  dbUrl env = env !! "DB_FILE_NAME" ∧
  dialect env = "sqlite".
Proof.
  intros Hsel. assert (Hflag : isPostgres env = false).
  { unfold isPostgres. by apply bool_decide_eq_false. }
  unfold db, dbUrl, dialect. by rewrite Hflag.
Qed.

(** X25. [dbTest] calls the method of the driver that built the handle:
    [execute] on the Postgres handle, [run] on the SQLite one, with the
    query as it came. *)
Theorem dbTest_method_matches_driver (env : gmap string string) (query : string) :
  method_of_driver (dbTest env query).1 (dbTest env query).2 = true ∧
  (dbTest env query).1 = db env ∧
  ((dbTest env query).2 = db_execute query ∨ (dbTest env query).2 = db_run query).
Proof.
  unfold dbTest, db.
  destruct (isPostgres env); simpl; (split; [done |]; split; [done |]); [by left | by right].
Qed.

(** X26. [hasGoogleSetup] holds exactly when both Google variables are set to
    non-empty strings. *)
Theorem hasGoogleSetup_iff (env : gmap string string) :
  hasGoogleSetup env = true ↔
  ∃ id secret,
    env !! "GOOGLE_CLIENT_ID" = Some id ∧ id ≠ "" ∧
    env !! "GOOGLE_CLIENT_SECRET" = Some secret ∧ secret ≠ "".
Proof.
  unfold hasGoogleSetup, truthy. split.
  - intros Hboth. apply andb_true_iff in Hboth as [Hid Hsecret].
    destruct (env !! "GOOGLE_CLIENT_ID") as [id |]; [| discriminate].
    destruct (env !! "GOOGLE_CLIENT_SECRET") as [secret |]; [| discriminate].
    exists id, secret.
    destruct (String.eqb_spec id ""); [discriminate |].
    destruct (String.eqb_spec secret ""); [discriminate |]. done.
  - intros (id & secret & -> & Hid & -> & Hsecret).
    destruct (String.eqb_spec id ""); [contradiction |].
    by destruct (String.eqb_spec secret "").
Qed.

End Database.

Lemma annotation_keeps_the_rest_witness :
  ∃ out,
    _withAnthropicCache Sample.world [Scenario.msg_with_options; Sample.msg_user] "anthropic"
      !! 0%nat = Some out ∧
    optionOf out "openai" "store" = Some (JBool true) ∧
    optionOf out "anthropic" "sendReasoning" = Some (JBool false).
Proof.
  exists (withCache Scenario.msg_with_options (CACHE_1H Sample.world)).
  destruct (annotation_keeps_the_rest Sample.world
              [Scenario.msg_with_options; Sample.msg_user] "anthropic" 0%nat
              Scenario.msg_with_options
              (withCache Scenario.msg_with_options (CACHE_1H Sample.world)))
    as (_ & _ & _ & Hkept).
  - reflexivity.
  - reflexivity.
  - split; [reflexivity |]. split.
    + etrans; [apply Hkept; discriminate | vm_compute; reflexivity].
    + etrans; [apply Hkept; discriminate | vm_compute; reflexivity].
Defined.

Lemma only_first_and_last_marked_witness :
  cacheControl Sample.msg_user = None ∧
  cacheControl (withCache Sample.msg_assistant (CACHE_5M Sample.world))
    = Some (CACHE_5M Sample.world).
Proof.
  split.
  - apply (only_first_and_last_marked Sample.world Sample.conversation 1%nat Sample.msg_user).
    + repeat constructor.
    + reflexivity.
  - apply (only_first_and_last_marked Sample.world Sample.conversation 2%nat
             (withCache Sample.msg_assistant (CACHE_5M Sample.world))).
    + repeat constructor.
    + reflexivity.
Defined.

Lemma at_most_two_breakpoints_witness :
  length (filter (λ msg, is_marked msg = true)
            (_withAnthropicCache Sample.world Sample.conversation "anthropic")) ≤ 2.
Proof.
  apply (at_most_two_breakpoints Sample.world Sample.conversation). repeat constructor.
Defined.

Lemma buildInitialMessages_shape_witness :
  ∃ initial,
    _buildInitialMessages Sample.world ["hi"] "anthropic" = Ok initial ∧
    length initial = 2%nat ∧
    ∃ out, initial !! 1%nat = Some out ∧ cacheControl out = Some (CACHE_5M Sample.world).
Proof.
  destruct (buildInitialMessages_shape Sample.world ["hi"] "anthropic") as [_ Hshape].
  destruct (Hshape [Sample.msg_user]) as (initial & Hbuild & Hlen & _ & Hrest & _);
    [reflexivity |].
  exists initial. split; [exact Hbuild |]. split; [exact Hlen |].
  destruct (Hrest 0%nat Sample.msg_user) as (out & Hout & _ & _ & _ & Hleaf); [reflexivity |].
  exists out. split; [exact Hout |]. by apply Hleaf.
Defined.

Lemma prepareStep_after_responses_witness :
  ∃ annotated,
    prepareStep Sample.world Scenario.agent_c2
      (_withAnthropicCache Sample.world [Sample.msg_system; Sample.msg_user] "anthropic"
         ++ [Sample.msg_assistant]) 1
    = Some annotated ∧
    length annotated = 3%nat.
Proof.
  destruct (prepareStep_after_responses Sample.world Scenario.agent_c2 ["hi"]
              [Sample.msg_user]
              (_withAnthropicCache Sample.world [Sample.msg_system; Sample.msg_user]
                 "anthropic")
              [Sample.msg_assistant] 0%nat)
    as (_ & annotated & Hstep & Hlen & _).
  - reflexivity.
  - reflexivity.
  - discriminate.
  - reflexivity.
  - discriminate.
  - exists annotated. by split.
Defined.


Lemma sqlite_unless_exactly_postgres_witness :
  DbConfig.db Scenario.env_capitalised
    = DbConfig.drizzleSqlite (Some "nao.db") DbConfig.sqliteSchema ∧
  DbConfig.db Scenario.env_postgres
    = DbConfig.drizzlePostgres (Some "postgres://localhost/nao") DbConfig.postgresSchema.
Proof.
  split.
  - destruct (sqlite_unless_exactly_postgres Scenario.env_capitalised) as (_ & Hdb & _).
    + vm_compute. discriminate.
    + etrans; [exact Hdb | vm_compute; reflexivity].
  - vm_compute. reflexivity.
Defined.

Lemma hasGoogleSetup_iff_witness :
  DbConfig.hasGoogleSetup Scenario.env_google = true ∧
  DbConfig.hasGoogleSetup Scenario.env_postgres = false.
Proof.
  split.
  - apply hasGoogleSetup_iff. exists "id-1", "secret-1".
    split; [vm_compute; reflexivity |]. split; [discriminate |].
    split; [vm_compute; reflexivity | discriminate].
  - vm_compute. reflexivity.
Defined.
